(** * Gas storage contract pricing: a shallow embedding of
      [Task_2/gas_storage_pricing.py] (class [GasStoragePricer]).

    Conventions of the embedding.

    - A [datetime] (and a pandas [Timestamp]) is the number of microseconds
      since 1970-01-01T00:00; [timedelta.days] is the floor of the
      difference divided by the length of a day.
    - A Python [float] is an exact rational of [Q]: rounding, infinities
      and NaN are outside the model.  Results are compared with [==].
    - A raised exception is a value [Raise e] of the [result] type.
    - [price_contract] assigns a field of the pricer object: the method
      takes the object and returns it as it leaves it, and the objects
      live on a heap of references where a statement is about sharing.
    - [list.sort] and [sorted] are stable; they are embedded as a stable
      insertion sort. *)

From Stdlib Require Import ZArith QArith List Bool Lia Lqa.
From Stdlib Require Import Sorting.Permutation Sorting.Sorted.
Import ListNotations.

Local Open Scope Z_scope.
Local Open Scope Q_scope.

(** ** Exceptions *)

Inductive exception : Type :=
| IndexError   (* positional indexer out of bounds ([.iloc]) *)
| KeyError.    (* missing dictionary key *)

Inductive result (A : Type) : Type :=
| Ok (a : A)
| Raise (e : exception).

Arguments Ok {A} a.
Arguments Raise {A} e.

Definition bind {A B : Type} (r : result A) (k : A -> result B) : result B :=
  match r with
  | Ok a => k a
  | Raise e => Raise e
  end.

Notation "x <- r ;; k" := (bind r (fun x => k))
  (at level 61, r at next level, right associativity).

(** ** Dates *)

Definition datetime : Type := Z.

Definition us_per_day : Z := 86400000000.

(** [delta.days] for a [timedelta] of [delta] microseconds. *)
Definition days (delta : Z) : Z := (delta / us_per_day)%Z.

(** Day number of a proleptic Gregorian date, 1970-01-01 being day 0. *)
Definition days_from_civil (y m d : Z) : Z :=
  (let y' := if m <=? 2 then y - 1 else y in
   let era := y' / 400 in
   let yoe := y' - era * 400 in
   let mp := (m + 9) mod 12 in
   let doy := (153 * mp + 2) / 5 + d - 1 in
   let doe := yoe * 365 + yoe / 4 - yoe / 100 + doy in
   era * 146097 + doe - 719468)%Z.

(** [datetime(y, m, d)], which is also what
    [datetime.strptime(s, '%Y-%m-%d')] yields: midnight of that day. *)
Definition datetime_ymd (y m d : Z) : datetime :=
  (days_from_civil y m d * us_per_day)%Z.

(** A calendar date: a [datetime] with no time of day. *)
Definition is_midnight (d : datetime) : Prop := (d mod us_per_day = 0)%Z.

(** ** Numbers *)

Definition Qltb (x y : Q) : bool := negb (Qle_bool y x).

(** Python's builtin [min(a, b)]: the first argument unless the second is
    strictly smaller. *)
Definition min_ (a b : Q) : Q := if Qltb b a then b else a.

(** Python's builtin [sum]: a left fold from 0. *)
Definition sum (xs : list Q) : Q := fold_left Qplus xs 0.

(** ** Stable sorting *)

Section StableSort.
Context {A : Type}.
(** [le x y]: the key of [x] is at most the key of [y]. *)
Variable le : A -> A -> bool.

Fixpoint insert_sorted (x : A) (l : list A) : list A :=
  match l with
  | [] => [x]
  | y :: l' => if le x y then x :: y :: l' else y :: insert_sorted x l'
  end.

(** Every element is inserted in front of the first later element whose
    key is not smaller, so equal keys keep their order. *)
Fixpoint stable_sort (l : list A) : list A :=
  match l with
  | [] => []
  | x :: l' => insert_sorted x (stable_sort l')
  end.
End StableSort.

(** The order relation that a boolean comparison decides. *)
Definition rel_of {A : Type} (le : A -> A -> bool) (a b : A) : Prop :=
  le a b = true.

(** ** The pricer object *)

Definition row : Type := (datetime * Q)%type.

Definition Dates (r : row) : datetime := fst r.
Definition Prices (r : row) : Q := snd r.

Record GasStoragePricer : Type := {
  price_data : list row;
  storage_cost_per_unit_per_day : Q
}.

(** [sort_values('Dates')]: rows by ascending date.  Rows of equal date
    keep their order here; pandas' default sort leaves their order open,
    and every statement that depends on the order of the rows assumes
    unique dates. *)
Definition date_le (a b : row) : bool := (Dates a <=? Dates b)%Z.

Definition sort_values_Dates (rows : list row) : list row :=
  stable_sort date_le rows.

Definition __init__ (data : list row) (cost : Q) : GasStoragePricer :=
  {| price_data := sort_values_Dates data;
     storage_cost_per_unit_per_day := cost |}.

(** [Series.min()] and [Series.max()] of a date column; [None] is [NaT]. *)
Fixpoint column_min (ds : list datetime) : option datetime :=
  match ds with
  | [] => None
  | d :: ds' =>
      match column_min ds' with
      | None => Some d
      | Some m => Some (Z.min d m)
      end
  end.

Fixpoint column_max (ds : list datetime) : option datetime :=
  match ds with
  | [] => None
  | d :: ds' =>
      match column_max ds' with
      | None => Some d
      | Some m => Some (Z.max d m)
      end
  end.

(** Comparisons with [NaT] are false. *)
Definition le_NaT (d : datetime) (o : option datetime) : bool :=
  match o with
  | Some m => (d <=? m)%Z
  | None => false
  end.

Definition ge_NaT (d : datetime) (o : option datetime) : bool :=
  match o with
  | Some m => (m <=? d)%Z
  | None => false
  end.

(** [rows.iloc[i]], negative positions counting from the end. *)
Definition iloc {A : Type} (rows : list A) (i : Z) : result A :=
  let n := Z.of_nat (length rows) in
  let j := (if i <? 0 then n + i else i)%Z in
  if ((j <? 0) || (n <=? j))%Z then Raise IndexError
  else match nth_error rows (Z.to_nat j) with
       | Some r => Ok r
       | None => Raise IndexError
       end.

Definition interpolate_price (self : GasStoragePricer) (date : datetime)
  : result Q :=
  let rows := price_data self in
  if le_NaT date (column_min (map Dates rows)) then
    r <- iloc rows 0 ;; Ok (Prices r)
  else if ge_NaT date (column_max (map Dates rows)) then
    r <- iloc rows (-1) ;; Ok (Prices r)
  else
    before <- iloc (filter (fun r => (Dates r <=? date)%Z) rows) (-1) ;;
    after <- iloc (filter (fun r => (date <? Dates r)%Z) rows) 0 ;;
    let days_total := days (Dates after - Dates before) in
    let days_from_before := days (date - Dates before) in
    if (days_total =? 0)%Z then Ok (Prices before)
    else
      let weight := inject_Z days_from_before / inject_Z days_total in
      Ok (Prices before * (1 - weight) + Prices after * weight).

(** ** Storage cost *)

Definition sample : Type := (datetime * Q)%type.

(** The loop of [calculate_storage_costs], [total_cost] being the
    accumulator: one step per pair of neighbouring samples. *)
Fixpoint storage_cost_loop (rate : Q) (schedule : list sample) (total_cost : Q)
  : Q :=
  match schedule with
  | (current_date, current_inventory) :: (((next_date, _) :: _) as rest) =>
      let days_ := days (next_date - current_date) in
      let daily_cost := current_inventory * rate in
      storage_cost_loop rate rest (total_cost + daily_cost * inject_Z days_)
  | _ => total_cost
  end.

Definition calculate_storage_costs (self : GasStoragePricer)
    (inventory_schedule : list sample) : Q :=
  storage_cost_loop (storage_cost_per_unit_per_day self) inventory_schedule 0.

(** ** The valuation engine *)

Inductive operation_kind : Type := inject | withdraw | liquidate.

Definition is_inject (k : operation_kind) : bool :=
  match k with inject => true | _ => false end.

(** An entry of [all_operations]: the tuple (date, operation, volume, price). *)
Record proposal : Type := {
  p_date : datetime;
  p_operation : operation_kind;
  p_volume : Q;
  p_price : Q
}.

(** An entry of [strategy]. *)
Record Operation : Type := {
  op_date : datetime;
  op_operation : operation_kind;
  op_volume : Q;
  op_price : Q;
  op_cash_flow : Q;
  op_inventory_after : Q
}.

(** The dictionary that [optimize_storage_strategy] returns. *)
Record ValuationResult : Type := {
  strategy : list Operation;
  inventory_schedule : list sample;
  total_cash_flow : Q;
  storage_costs : Q;
  contract_value : Q;
  price_map : list (datetime * Q)
}.

(** [sorted(set(dates))]. *)
Fixpoint insert_unique (d : datetime) (l : list datetime) : list datetime :=
  match l with
  | [] => [d]
  | x :: l' =>
      if (d <? x)%Z then d :: l
      else if (d =? x)%Z then l
      else x :: insert_unique d l'
  end.

Definition sorted_set (dates : list datetime) : list datetime :=
  fold_right insert_unique [] dates.

(** A list comprehension whose body may raise. *)
Fixpoint mapM {A B : Type} (f : A -> result B) (l : list A) : result (list B) :=
  match l with
  | [] => Ok []
  | a :: l' => b <- f a ;; bs <- mapM f l' ;; Ok (b :: bs)
  end.

(** [m[date]] for a dictionary kept as its list of items. *)
Fixpoint getitem (m : list (datetime * Q)) (date : datetime) : result Q :=
  match m with
  | [] => Raise KeyError
  | (k, v) :: m' => if (k =? date)%Z then Ok v else getitem m' date
  end.

Definition is_empty {A : Type} (l : list A) : bool :=
  match l with [] => true | _ => false end.

Definition profitable_withdrawals (withdrawal_prices : list row)
    (inj_date : datetime) (inj_price : Q) : list row :=
  filter (fun w => Qltb inj_price (snd w) && (inj_date <? fst w)%Z)
         withdrawal_prices.

(** One iteration of the first loop.  The state is the pair of the local
    variables [current_inventory] and [all_operations]. *)
Definition injection_step (injection_withdrawal_rate max_storage_volume : Q)
    (withdrawal_prices : list row) (st : Q * list proposal) (ip : row)
  : Q * list proposal :=
  let '(current_inventory, all_operations) := st in
  let '(inj_date, inj_price) := ip in
  if negb (is_empty (profitable_withdrawals withdrawal_prices inj_date inj_price))
     && Qltb current_inventory max_storage_volume
  then
    let volume_to_inject :=
      min_ injection_withdrawal_rate (max_storage_volume - current_inventory) in
    if Qltb 0 volume_to_inject then
      (current_inventory,
       all_operations ++ [ {| p_date := inj_date; p_operation := inject;
                              p_volume := volume_to_inject;
                              p_price := inj_price |} ])
    else st
  else st.

Definition injection_pass (injection_withdrawal_rate max_storage_volume : Q)
    (injection_prices withdrawal_prices : list row) : Q * list proposal :=
  fold_left
    (injection_step injection_withdrawal_rate max_storage_volume withdrawal_prices)
    injection_prices (0, []).

Definition prior_injections (all_operations : list proposal)
    (with_date : datetime) : list proposal :=
  filter (fun op => (p_date op <? with_date)%Z && is_inject (p_operation op))
         all_operations.

(** One iteration of the second loop; the state is [all_operations]. *)
Definition withdrawal_step (injection_withdrawal_rate : Q)
    (all_operations : list proposal) (wp : row) : list proposal :=
  let '(with_date, with_price) := wp in
  let prior := prior_injections all_operations with_date in
  if negb (is_empty prior) then
    let available_volume := sum (map p_volume prior) in
    if Qltb 0 available_volume then
      let volume_to_withdraw := min_ injection_withdrawal_rate available_volume in
      all_operations ++ [ {| p_date := with_date; p_operation := withdraw;
                             p_volume := volume_to_withdraw;
                             p_price := with_price |} ]
    else all_operations
  else all_operations.

Definition withdrawal_pass (injection_withdrawal_rate : Q)
    (withdrawal_prices : list row) (all_operations : list proposal)
  : list proposal :=
  fold_left (withdrawal_step injection_withdrawal_rate)
            withdrawal_prices all_operations.

Definition sort_by_date (all_operations : list proposal) : list proposal :=
  stable_sort (fun a b => (p_date a <=? p_date b)%Z) all_operations.

(** The local variables that the execution loop updates. *)
Record exec_state : Type := {
  current_inventory : Q;
  cash : Q;
  ops : list Operation;
  schedule : list sample
}.

Definition execute_step (max_storage_volume : Q) (st : exec_state)
    (p : proposal) : exec_state :=
  let volume := p_volume p in
  let price := p_price p in
  let st' :=
    match p_operation p with
    | inject =>
        if Qle_bool (current_inventory st + volume) max_storage_volume then
          let inv := current_inventory st + volume in
          {| current_inventory := inv;
             cash := cash st - volume * price;
             ops := ops st ++ [ {| op_date := p_date p; op_operation := inject;
                                   op_volume := volume; op_price := price;
                                   op_cash_flow := - volume * price;
                                   op_inventory_after := inv |} ];
             schedule := schedule st |}
        else st
    | withdraw =>
        if Qle_bool volume (current_inventory st) then
          let inv := current_inventory st - volume in
          {| current_inventory := inv;
             cash := cash st + volume * price;
             ops := ops st ++ [ {| op_date := p_date p; op_operation := withdraw;
                                   op_volume := volume; op_price := price;
                                   op_cash_flow := volume * price;
                                   op_inventory_after := inv |} ];
             schedule := schedule st |}
        else st
    | liquidate => st
    end in
  {| current_inventory := current_inventory st';
     cash := cash st';
     ops := ops st';
     schedule := schedule st' ++ [(p_date p, current_inventory st')] |}.

Definition execute (max_storage_volume : Q) (contract_start : datetime)
    (all_operations : list proposal) : exec_state :=
  fold_left (execute_step max_storage_volume) all_operations
    {| current_inventory := 0; cash := 0; ops := [];
       schedule := [(contract_start, 0)] |}.

(** The keys of the two price sorts: ascending for the injection dates,
    descending ([reverse=True]) for the withdrawal dates. *)
Definition price_le (a b : row) : bool := Qle_bool (snd a) (snd b).
Definition price_ge (a b : row) : bool := Qle_bool (snd b) (snd a).

(** The proposal stage: the two price sorts, the two proposal loops and
    the sort of [all_operations] by date. *)
Definition propose (injection_withdrawal_rate max_storage_volume : Q)
    (injection_prices withdrawal_prices : list row) : list proposal :=
  let injection_prices := stable_sort price_le injection_prices in
  let withdrawal_prices := stable_sort price_ge withdrawal_prices in
  let all_operations :=
    snd (injection_pass injection_withdrawal_rate max_storage_volume
                        injection_prices withdrawal_prices) in
  let all_operations :=
    withdrawal_pass injection_withdrawal_rate withdrawal_prices all_operations in
  sort_by_date all_operations.

Definition optimize_storage_strategy (self : GasStoragePricer)
    (injection_dates withdrawal_dates : list datetime)
    (injection_withdrawal_rate max_storage_volume : Q)
    (contract_start contract_end : datetime) : result ValuationResult :=
  let all_dates :=
    sorted_set (injection_dates ++ withdrawal_dates
                ++ [contract_start; contract_end]) in
  price_map <- mapM (fun date => p <- interpolate_price self date ;; Ok (date, p))
                    all_dates ;;
  injection_prices <-
    mapM (fun date => p <- getitem price_map date ;; Ok (date, p))
         injection_dates ;;
  withdrawal_prices <-
    mapM (fun date => p <- getitem price_map date ;; Ok (date, p))
         withdrawal_dates ;;
  let all_operations :=
    propose injection_withdrawal_rate max_storage_volume
            injection_prices withdrawal_prices in
  let st := execute max_storage_volume contract_start all_operations in
  st <- (if Qltb 0 (current_inventory st) then
           end_price <- interpolate_price self contract_end ;;
           Ok {| current_inventory := current_inventory st;
                 cash := cash st + current_inventory st * end_price;
                 ops := ops st ++
                   [ {| op_date := contract_end; op_operation := liquidate;
                        op_volume := current_inventory st;
                        op_price := end_price;
                        op_cash_flow := current_inventory st * end_price;
                        op_inventory_after := 0 |} ];
                 schedule := schedule st |}
         else Ok st) ;;
  let inventory_schedule := schedule st ++ [(contract_end, 0)] in
  let storage_costs := calculate_storage_costs self inventory_schedule in
  let contract_value := cash st - storage_costs in
  Ok {| strategy := ops st;
        inventory_schedule := inventory_schedule;
        total_cash_flow := cash st;
        storage_costs := storage_costs;
        contract_value := contract_value;
        price_map := price_map |}.

(** [price_contract] assigns the pricer's cost field before it runs the
    engine, so it returns the pricer as it leaves it next to the result.
    The dates arrive parsed: [strptime] on the date strings is left to
    the caller's side. *)
Definition price_contract (self : GasStoragePricer)
    (injection_dates withdrawal_dates : list datetime)
    (injection_withdrawal_rate max_storage_volume : Q)
    (contract_start contract_end : datetime)
    (storage_cost_per_unit_per_day_arg : option Q)
  : result ValuationResult * GasStoragePricer :=
  let self :=
    match storage_cost_per_unit_per_day_arg with
    | Some c => {| price_data := price_data self;
                   storage_cost_per_unit_per_day := c |}
    | None => self
    end in
  (optimize_storage_strategy self injection_dates withdrawal_dates
     injection_withdrawal_rate max_storage_volume contract_start contract_end,
   self).

(** ** Vocabulary of the statements *)

(** A call that returns the number [q]. *)
Definition returns (r : result Q) (q : Q) : Prop :=
  match r with
  | Ok p => p == q
  | Raise _ => False
  end.

(** The nearest observed row at or before a date, and the nearest one
    after it. *)
Definition nearest_at_or_before (data : list row) (date : datetime) (b : row)
  : Prop :=
  In b data /\ (Dates b <= date)%Z /\
  forall r, In r data -> (Dates r <= date)%Z -> (Dates r <= Dates b)%Z.

Definition nearest_after (data : list row) (date : datetime) (a : row) : Prop :=
  In a data /\ (date < Dates a)%Z /\
  forall r, In r data -> (date < Dates r)%Z -> (Dates a <= Dates r)%Z.

(** The series of the worked example: 10.0 on 2021-01-01 and 20.0 on
    2021-01-11. *)
Definition two_points : list row :=
  [(datetime_ymd 2021 1 1, 10); (datetime_ymd 2021 1 11, 20)].

(** The neighbouring pairs of a sequence, in order. *)
Fixpoint consecutive_pairs {A : Type} (l : list A) : list (A * A) :=
  match l with
  | a :: ((b :: _) as t) => (a, b) :: consecutive_pairs t
  | _ => []
  end.

(** The storage cost as the specification words it: for every pair of
    neighbouring samples, the level of the leading sample times the whole
    days between the two dates times the cost rate; the total is their sum. *)
Definition interval_cost (rate : Q) (pair : sample * sample) : Q :=
  let '((leading_date, leading_level), (next_date, _)) := pair in
  leading_level * inject_Z (days (next_date - leading_date)) * rate.

Definition storage_cost_spec (rate : Q) (inventory_schedule : list sample) : Q :=
  fold_right Qplus 0
    (map (interval_cost rate) (consecutive_pairs inventory_schedule)).

(** Sample dates that never go back in time. *)
Definition dates_ascending (inventory_schedule : list sample) : Prop :=
  Sorted (fun a b : sample => (fst a <= fst b)%Z) inventory_schedule.

(** A schedule whose second sample is dated before its first. *)
Definition backwards_schedule : list sample :=
  [(datetime_ymd 2021 1 10, 5); (datetime_ymd 2021 1 1, 0)].

(** The injection proposals dated strictly before a withdrawal date, and
    what the withdrawal loop is said to propose for one candidate: a
    withdrawal of min(rate, gross volume of those proposals) when there
    are such proposals and their gross volume is positive, nothing
    otherwise. *)
Definition earlier_injections (injection_proposals : list proposal)
    (with_date : datetime) : list proposal :=
  filter (fun op => (p_date op <? with_date)%Z) injection_proposals.

Definition withdrawal_for (rate : Q) (injection_proposals : list proposal)
    (candidate : row) : list proposal :=
  let earlier := earlier_injections injection_proposals (fst candidate) in
  let gross := sum (map p_volume earlier) in
  if negb (is_empty earlier) && Qltb 0 gross then
    [ {| p_date := fst candidate; p_operation := withdraw;
         p_volume := min_ rate gross; p_price := snd candidate |} ]
  else [].

(** A call that raises. *)
Definition rejected {A : Type} (r : result A) : Prop :=
  exists e, r = Raise e.

(** The parameters of one valuation call. *)
Record contract : Type := {
  c_injection_dates : list datetime;
  c_withdrawal_dates : list datetime;
  c_rate : Q;
  c_max_volume : Q;
  c_start : datetime;
  c_end : datetime
}.

Definition price_contract_for (self : GasStoragePricer) (c : contract)
    (override : option Q) : result ValuationResult * GasStoragePricer :=
  price_contract self (c_injection_dates c) (c_withdrawal_dates c)
    (c_rate c) (c_max_volume c) (c_start c) (c_end c) override.

(** The engine on the parameters of a contract record. *)
Definition optimize_for (self : GasStoragePricer) (c : contract)
  : result ValuationResult :=
  optimize_storage_strategy self (c_injection_dates c) (c_withdrawal_dates c)
    (c_rate c) (c_max_volume c) (c_start c) (c_end c).

(** Pricer objects live on a heap and are reached through references, so
    that two names of one object see each other's assignments. *)
Definition ref : Type := nat.
Definition heap : Type := ref -> GasStoragePricer.

Definition heap_set (h : heap) (r : ref) (obj : GasStoragePricer) : heap :=
  fun r' => if Nat.eqb r' r then obj else h r'.

(** The method call [pricer.price_contract(...)], [self] being the
    reference that [pricer] holds. *)
Definition call_price_contract (h : heap) (self : ref) (c : contract)
    (override : option Q) : result ValuationResult * heap :=
  let '(res, obj) := price_contract_for (h self) c override in
  (res, heap_set h self obj).

Record call : Type := {
  call_self : ref;
  call_contract : contract;
  call_override : option Q
}.

(** A sequence of method calls, one after the other, on one heap. *)
Fixpoint run_calls (h : heap) (calls : list call)
  : list (result ValuationResult) * heap :=
  match calls with
  | [] => ([], h)
  | k :: calls' =>
      let '(r, h') :=
        call_price_contract h (call_self k) (call_contract k)
                            (call_override k) in
      let '(rs, h'') := run_calls h' calls' in
      (r :: rs, h'')
  end.

(** The pricer with another cost rate and the same series. *)
Definition with_cost (self : GasStoragePricer) (cost : Q) : GasStoragePricer :=
  {| price_data := price_data self; storage_cost_per_unit_per_day := cost |}.

(** Worked inputs on the series [two_points]: injection candidates on
    2021-01-02 and 2021-01-03, one withdrawal candidate on 2021-01-10,
    rate 60, capacity 100, contract from 2021-01-01 to 2021-01-11. *)
Definition jan (d : Z) : datetime := datetime_ymd 2021 1 d.

Definition example_contract : contract :=
  {| c_injection_dates := [jan 2; jan 3];
     c_withdrawal_dates := [jan 10];
     c_rate := 60; c_max_volume := 100;
     c_start := jan 1; c_end := jan 11 |}.

(** What the first loop guarantees of a proposal it appends. *)
Definition injection_proposal (rate max_volume : Q) (injection_prices
    withdrawal_prices : list row) (p : proposal) : Prop :=
  p_operation p = inject /\
  In (p_date p, p_price p) injection_prices /\
  p_volume p = min_ rate (max_volume - 0) /\
  0 < p_volume p /\
  0 < max_volume /\
  exists w, In w withdrawal_prices /\
            p_price p < snd w /\ (p_date p < fst w)%Z.

(** What the second loop appends for one candidate, for any list
    [all] that it starts from. *)
Definition withdrawal_of (rate : Q) (all : list proposal) (wp : row)
  : list proposal :=
  if negb (is_empty (prior_injections all (fst wp)))
     && Qltb 0 (sum (map p_volume (prior_injections all (fst wp))))
  then [ {| p_date := fst wp; p_operation := withdraw;
            p_volume :=
              min_ rate (sum (map p_volume (prior_injections all (fst wp))));
            p_price := snd wp |} ]
  else [].

Definition within_capacity (max_volume : Q) (s : sample) : Prop :=
  0 <= snd s <= max_volume.

Definition exec_inv (max_volume : Q) (st : exec_state) : Prop :=
  0 <= current_inventory st <= max_volume /\
  Forall (within_capacity max_volume) (schedule st).

(** Comparisons of concrete dates, by evaluation. *)
Ltac decide_dates :=
  vm_compute; repeat split; intros;
  try discriminate; try reflexivity;
  try (exfalso; match goal with H : _ -> False |- _ => apply H; reflexivity end).

(** A contract whose candidate dates (2021-01-08, 2021-01-09, 2021-01-10)
    all come after its end (2021-01-02); rate 50, capacity 100. *)
Definition late_contract : contract :=
  {| c_injection_dates := [jan 8; jan 9];
     c_withdrawal_dates := [jan 10];
     c_rate := 50; c_max_volume := 100;
     c_start := jan 1; c_end := jan 2 |}.

(** A heap whose objects were all built on [two_points] at cost 0.01, and
    four calls: objects 0 and 1 are priced on [example_contract], object 0
    once with an override of 0.5 in between. *)
Definition example_heap : heap := fun _ => __init__ two_points (1#100).

Definition example_calls : list call :=
  [ {| call_self := 0%nat; call_contract := example_contract;
       call_override := None |};
    {| call_self := 0%nat; call_contract := example_contract;
       call_override := Some (1#2) |};
    {| call_self := 0%nat; call_contract := example_contract;
       call_override := None |};
    {| call_self := 1%nat; call_contract := example_contract;
       call_override := None |} ].

(** The storage cost that a call reports, when it returns. *)
Definition reported_storage_costs (r : result ValuationResult) : option Q :=
  match r with
  | Ok res => Some (Qred (storage_costs res))
  | Raise _ => None
  end.

(** A resolved price: the date with what the price lookup returns for it. *)
Definition resolved (self : GasStoragePricer) (d : datetime) (item : row)
  : Prop :=
  fst item = d /\ interpolate_price self d = Ok (snd item).

(** ** Vocabulary of the further properties *)

Definition kind_eqb (a b : operation_kind) : bool :=
  match a, b with
  | inject, inject | withdraw, withdraw | liquidate, liquidate => true
  | _, _ => false
  end.

(** The volume that the operations of one kind move, and the cash that a
    list of operations brings in. *)
Definition volume_of (k : operation_kind) (l : list Operation) : Q :=
  fold_right Qplus 0
    (map op_volume (filter (fun o => kind_eqb (op_operation o) k) l)).

Definition cash_flows (l : list Operation) : Q :=
  fold_right Qplus 0 (map op_cash_flow l).

(** The record that the forced sale appends to [strategy]. *)
Definition liquidation_op (contract_end : datetime) (end_price inventory : Q)
  : Operation :=
  {| op_date := contract_end; op_operation := liquidate;
     op_volume := inventory; op_price := end_price;
     op_cash_flow := inventory * end_price; op_inventory_after := 0 |}.

(** The record that the execution loop appends for a proposal it applies,
    [inventory_after] being the inventory once it is applied. *)
Definition executed_op (p : proposal) (inventory_after : Q) : Operation :=
  {| op_date := p_date p; op_operation := p_operation p;
     op_volume := p_volume p; op_price := p_price p;
     op_cash_flow :=
       match p_operation p with
       | inject => - p_volume p * p_price p
       | _ => p_volume p * p_price p
       end;
     op_inventory_after := inventory_after |}.


(** What the proposal stage guarantees of every proposal it hands to the
    execution loop, in terms of the resolved prices it was given. *)
Definition sound_proposal (rate : Q) (injection_prices withdrawal_prices
    : list row) (p : proposal) : Prop :=
  0 < p_volume p <= rate /\
  ((p_operation p = inject /\
    In (p_date p, p_price p) injection_prices /\
    exists w, In w withdrawal_prices /\
              p_price p < snd w /\ (p_date p < fst w)%Z) \/
   (p_operation p = withdraw /\
    In (p_date p, p_price p) withdrawal_prices)).

(** The engine on [example_contract] and the series [two_points], at the
    constructor's cost 0.01. *)
Definition example_pricer : GasStoragePricer := __init__ two_points (1#100).

(** An operation that the execution loop may record for the capacity
    [max_volume] and the rate [rate]. *)
Definition well_formed_op (rate max_volume : Q) (o : Operation) : Prop :=
  0 < op_volume o /\
  0 <= op_inventory_after o <= max_volume /\
  (op_operation o <> liquidate -> op_volume o <= rate) /\
  op_cash_flow o
  = match op_operation o with
    | inject => - op_volume o * op_price o
    | _ => op_volume o * op_price o
    end.

(** An operation of a valuation on the pricer [self]: it is dated on a
    candidate date of its kind (the contract end for the forced sale) and
    priced at the interpolated price of its date; an injection moreover
    has a withdrawal candidate later in time at a strictly higher
    interpolated price. *)
Definition justified_op (self : GasStoragePricer)
    (injection_dates withdrawal_dates : list datetime)
    (contract_end : datetime) (o : Operation) : Prop :=
  interpolate_price self (op_date o) = Ok (op_price o) /\
  match op_operation o with
  | inject =>
      In (op_date o) injection_dates /\
      exists w pw, In w withdrawal_dates /\ (op_date o < w)%Z /\
                   interpolate_price self w = Ok pw /\ op_price o < pw
  | withdraw => In (op_date o) withdrawal_dates
  | liquidate => op_date o = contract_end
  end.

Definition proposal_date_le (a b : proposal) : bool :=
  (p_date a <=? p_date b)%Z.

Definition is_liquidation (o : Operation) : bool :=
  kind_eqb (op_operation o) liquidate.

(** A contract whose only withdrawal candidate (2021-01-03) comes before
    its only injection candidate (2021-01-05). *)
Definition inverted_contract : contract :=
  {| c_injection_dates := [jan 5];
     c_withdrawal_dates := [jan 3];
     c_rate := 50; c_max_volume := 100;
     c_start := jan 1; c_end := jan 11 |}.

(** The rows of [two_points], latest first. *)
Definition two_points_reversed : list row :=
  [(datetime_ymd 2021 1 11, 20); (datetime_ymd 2021 1 1, 10)].


(** * Properties *)

(** ** Sorting *)

Section StableSortFacts.
Context {A : Type}.
Variable le : A -> A -> bool.

Lemma insert_sorted_perm (x : A) (l : list A) :
  Permutation (x :: l) (insert_sorted le x l).
Proof.
  induction l as [|y l IH]; simpl.
  - apply Permutation_refl.
  - destruct (le x y).
    + apply Permutation_refl.
    + eapply perm_trans; [apply perm_swap|].
      now apply perm_skip.
Qed.

Lemma stable_sort_perm (l : list A) : Permutation l (stable_sort le l).
Proof.
  induction l as [|x l IH]; simpl.
  - constructor.
  - eapply perm_trans; [apply perm_skip, IH|].
    apply insert_sorted_perm.
Qed.

Lemma stable_sort_In (x : A) (l : list A) :
  In x (stable_sort le l) <-> In x l.
Proof.
  split; apply Permutation_in;
    [apply Permutation_sym|]; apply stable_sort_perm.
Qed.

Lemma stable_sort_Forall (P : A -> Prop) (l : list A) :
  Forall P l -> Forall P (stable_sort le l).
Proof.
  intros H. eapply Permutation_Forall; [apply stable_sort_perm|exact H].
Qed.

Hypothesis le_total : forall x y, le x y = true \/ le y x = true.
Hypothesis le_trans :
  forall x y z, le x y = true -> le y z = true -> le x z = true.

Lemma insert_sorted_sorted (x : A) (l : list A) :
  StronglySorted (rel_of le) l -> StronglySorted (rel_of le) (insert_sorted le x l).
Proof.
  induction 1 as [|y l Hs IH Hy]; simpl.
  - repeat constructor.
  - destruct (le x y) eqn:E.
    + constructor; [now constructor|].
      constructor; [exact E|].
      eapply Forall_impl; [|exact Hy].
      intros z Hz. now apply le_trans with y.
    + constructor; [exact IH|].
      eapply Permutation_Forall; [apply insert_sorted_perm|].
      constructor; [|exact Hy].
      destruct (le_total x y) as [H|H]; [congruence|exact H].
Qed.

Lemma stable_sort_sorted (l : list A) : StronglySorted (rel_of le) (stable_sort le l).
Proof.
  induction l as [|x l IH]; simpl.
  - constructor.
  - now apply insert_sorted_sorted.
Qed.
End StableSortFacts.

(** ** Positional indexing and column extrema *)

Lemma iloc_nil {A : Type} (i : Z) : iloc (@nil A) i = Raise IndexError.
Proof.
  unfold iloc. simpl length.
  match goal with |- (if ?c then _ else _) = _ => destruct c eqn:H end;
    [reflexivity|].
  apply orb_false_iff in H as [H1 H2].
  apply Z.ltb_ge in H1. apply Z.leb_gt in H2.
  destruct (i <? 0)%Z eqn:E;
    [apply Z.ltb_lt in E|apply Z.ltb_ge in E]; simpl in *; lia.
Qed.

Lemma iloc_first {A : Type} (x : A) (l : list A) : iloc (x :: l) 0 = Ok x.
Proof.
  unfold iloc. cbv zeta. change (0 <? 0)%Z with false. cbv iota.
  assert (H : ((Z.of_nat (length (x :: l)) <=? 0) = false)%Z)
    by (apply Z.leb_gt; simpl length; lia).
  rewrite H. reflexivity.
Qed.

Lemma iloc_last {A : Type} (x : A) (l : list A) : iloc (l ++ [x]) (-1) = Ok x.
Proof.
  unfold iloc. cbv zeta. change (-1 <? 0)%Z with true. cbv iota.
  rewrite length_app. simpl length.
  replace (Z.of_nat (length l + 1) + -1)%Z with (Z.of_nat (length l)) by lia.
  assert (H1 : ((Z.of_nat (length l) <? 0) = false)%Z) by (apply Z.ltb_ge; lia).
  assert (H2 : ((Z.of_nat (length l + 1) <=? Z.of_nat (length l)) = false)%Z)
    by (apply Z.leb_gt; lia).
  rewrite H1, H2. simpl orb. cbv iota.
  rewrite Nat2Z.id, nth_error_app2 by lia.
  now rewrite Nat.sub_diag.
Qed.

Lemma iloc_first_inv {A : Type} (x : A) (l : list A) :
  iloc l 0 = Ok x -> exists l', l = x :: l'.
Proof.
  destruct l as [|y l]; [now rewrite iloc_nil|].
  rewrite iloc_first. intros [= ->]. now exists l.
Qed.

Lemma iloc_last_inv {A : Type} (x : A) (l : list A) :
  iloc l (-1) = Ok x -> exists l', l = l' ++ [x].
Proof.
  destruct l as [|y l] using rev_ind; [now rewrite iloc_nil|].
  rewrite iloc_last. intros [= ->]. now exists l.
Qed.

Lemma column_min_spec (ds : list datetime) (m : datetime) :
  column_min ds = Some m -> In m ds /\ Forall (fun d => (m <= d)%Z) ds.
Proof.
  revert m. induction ds as [|d ds IH]; simpl; [discriminate|].
  intros m. destruct (column_min ds) as [m'|] eqn:E.
  - intros [= <-]. destruct (IH m' eq_refl) as [Hin Hall]. split.
    + destruct (Z.min_spec d m') as [[_ ->]|[_ ->]]; auto.
    + constructor; [lia|].
      eapply Forall_impl; [|exact Hall]. simpl. lia.
  - intros [= <-]. destruct ds; [|simpl in E; destruct (column_min ds); discriminate].
    split; [now left|]. constructor; [lia|constructor].
Qed.

Lemma column_max_spec (ds : list datetime) (m : datetime) :
  column_max ds = Some m -> In m ds /\ Forall (fun d => (d <= m)%Z) ds.
Proof.
  revert m. induction ds as [|d ds IH]; simpl; [discriminate|].
  intros m. destruct (column_max ds) as [m'|] eqn:E.
  - intros [= <-]. destruct (IH m' eq_refl) as [Hin Hall]. split.
    + destruct (Z.max_spec d m') as [[_ ->]|[_ ->]]; auto.
    + constructor; [lia|].
      eapply Forall_impl; [|exact Hall]. simpl. lia.
  - intros [= <-]. destruct ds; [|simpl in E; destruct (column_max ds); discriminate].
    split; [now left|]. constructor; [lia|constructor].
Qed.

Lemma column_min_nonempty (ds : list datetime) :
  ds <> [] -> exists m, column_min ds = Some m.
Proof.
  destruct ds as [|d ds]; [congruence|]. intros _. simpl.
  destruct (column_min ds); eauto.
Qed.

Lemma column_max_nonempty (ds : list datetime) :
  ds <> [] -> exists m, column_max ds = Some m.
Proof.
  destruct ds as [|d ds]; [congruence|]. intros _. simpl.
  destruct (column_max ds); eauto.
Qed.

(** ** Interpolation: the call returns on a series that is not empty *)

Lemma interpolate_price_empty (self : GasStoragePricer) (date : datetime) :
  price_data self = [] -> interpolate_price self date = Raise IndexError.
Proof.
  intros H. unfold interpolate_price. rewrite H. reflexivity.
Qed.

Lemma filter_nonempty {A : Type} (f : A -> bool) (l : list A) (x : A) :
  In x l -> f x = true -> filter f l <> [].
Proof.
  intros Hin Hf Hnil.
  assert (H : In x (filter f l)) by (apply filter_In; auto).
  rewrite Hnil in H. exact H.
Qed.

Lemma iloc_last_nonempty {A : Type} (l : list A) :
  l <> [] -> exists x, iloc l (-1) = Ok x.
Proof.
  intros H. destruct (exists_last H) as [l' [x ->]].
  exists x. apply iloc_last.
Qed.

Lemma iloc_first_nonempty {A : Type} (l : list A) :
  l <> [] -> exists x, iloc l 0 = Ok x.
Proof.
  destruct l as [|x l]; [congruence|]. intros _. exists x. apply iloc_first.
Qed.

Lemma interpolate_price_total (self : GasStoragePricer) (date : datetime) :
  price_data self <> [] -> exists p, interpolate_price self date = Ok p.
Proof.
  intros Hne. unfold interpolate_price.
  assert (Hd : map Dates (price_data self) <> []).
  { destruct (price_data self); [congruence|discriminate]. }
  destruct (column_min_nonempty _ Hd) as [lo Hlo].
  destruct (column_max_nonempty _ Hd) as [hi Hhi].
  rewrite Hlo, Hhi. simpl.
  destruct (date <=? lo)%Z eqn:E1.
  { destruct (iloc_first_nonempty _ Hne) as [r ->]. simpl. eauto. }
  destruct (hi <=? date)%Z eqn:E2.
  { destruct (iloc_last_nonempty _ Hne) as [r ->]. simpl. eauto. }
  apply Z.leb_gt in E1, E2.
  destruct (column_min_spec _ _ Hlo) as [Hin1 _].
  destruct (column_max_spec _ _ Hhi) as [Hin2 _].
  apply in_map_iff in Hin1 as [r1 [<- Hr1]].
  apply in_map_iff in Hin2 as [r2 [<- Hr2]].
  destruct (iloc_last_nonempty
              (filter (fun r => (Dates r <=? date)%Z) (price_data self)))
    as [b ->].
  { apply filter_nonempty with r1; [exact Hr1|]. apply Z.leb_le. lia. }
  destruct (iloc_first_nonempty
              (filter (fun r => (date <? Dates r)%Z) (price_data self)))
    as [a ->].
  { apply filter_nonempty with r2; [exact Hr2|]. apply Z.ltb_lt. lia. }
  simpl. destruct (days (Dates a - Dates b) =? 0)%Z; eauto.
Qed.

(** ** Interpolation on a series sorted by date *)

Lemma date_le_total (a b : row) : date_le a b = true \/ date_le b a = true.
Proof. unfold date_le. rewrite !Z.leb_le. lia. Qed.

Lemma date_le_trans (a b c : row) :
  date_le a b = true -> date_le b c = true -> date_le a c = true.
Proof. unfold date_le. rewrite !Z.leb_le. lia. Qed.

Lemma sort_values_sorted (data : list row) :
  StronglySorted (rel_of date_le) (sort_values_Dates data).
Proof.
  apply stable_sort_sorted; [exact date_le_total|exact date_le_trans].
Qed.

Lemma sort_values_In (r : row) (data : list row) :
  In r (sort_values_Dates data) <-> In r data.
Proof. apply stable_sort_In. Qed.

Lemma sort_values_NoDup (data : list row) :
  NoDup (map Dates data) -> NoDup (map Dates (sort_values_Dates data)).
Proof.
  apply Permutation_NoDup, Permutation_map, stable_sort_perm.
Qed.

Lemma unique_date_row (l : list row) (r1 r2 : row) :
  NoDup (map Dates l) -> In r1 l -> In r2 l -> Dates r1 = Dates r2 -> r1 = r2.
Proof.
  induction l as [|r l IH]; simpl; [contradiction|].
  intros Hnd H1 H2 Heq. inversion Hnd as [|? ? Hnotin Hnd']; subst.
  destruct H1 as [<-|H1], H2 as [<-|H2]; auto.
  - exfalso. apply Hnotin. rewrite Heq. now apply in_map.
  - exfalso. apply Hnotin. rewrite <- Heq. now apply in_map.
Qed.

Lemma sorted_head_least (r : row) (l : list row) :
  StronglySorted (rel_of date_le) (r :: l) ->
  forall x, In x (r :: l) -> (Dates r <= Dates x)%Z.
Proof.
  intros Hs x [<-|Hx]; [lia|].
  apply StronglySorted_inv in Hs as [_ Hall].
  rewrite Forall_forall in Hall. specialize (Hall x Hx).
  now apply Z.leb_le in Hall.
Qed.

Lemma sorted_last_greatest (r : row) (l : list row) :
  StronglySorted (rel_of date_le) (l ++ [r]) ->
  forall x, In x (l ++ [r]) -> (Dates x <= Dates r)%Z.
Proof.
  induction l as [|a l IH]; simpl; intros Hs x Hx.
  - destruct Hx as [<-|[]]. lia.
  - apply StronglySorted_inv in Hs as [Hs Hall].
    destruct Hx as [Ex|Hx]; [subst x|now apply IH].
    rewrite Forall_forall in Hall.
    assert (H : rel_of date_le a r) by (apply Hall, in_or_app; right; now left).
    now apply Z.leb_le in H.
Qed.

Lemma sorted_filter (f : row -> bool) (l : list row) :
  StronglySorted (rel_of date_le) l ->
  StronglySorted (rel_of date_le) (filter f l).
Proof.
  induction 1 as [|a l Hs IH Hall]; simpl; [constructor|].
  destruct (f a); [|exact IH].
  constructor; [exact IH|].
  rewrite Forall_forall in *. intros x Hx.
  apply filter_In in Hx as [Hx _]. auto.
Qed.

Section SortedSeries.
Variable self : GasStoragePricer.
Hypothesis Hsorted : StronglySorted (rel_of date_le) (price_data self).

Lemma interpolate_price_at_or_before (r0 : row) (date : datetime) :
  In r0 (price_data self) ->
  (forall r, In r (price_data self) -> (Dates r0 <= Dates r)%Z) ->
  (date <= Dates r0)%Z ->
  exists r, In r (price_data self) /\ Dates r = Dates r0 /\
            interpolate_price self date = Ok (Prices r).
Proof.
  intros Hin Hleast Hdate. unfold interpolate_price.
  destruct (price_data self) as [|r l] eqn:Erows; [contradiction|].
  destruct (column_min_nonempty (map Dates (r :: l))) as [lo Hlo];
    [discriminate|].
  rewrite Hlo. destruct (column_min_spec _ _ Hlo) as [Hlo_in Hlo_all].
  apply in_map_iff in Hlo_in as [rlo [Elo Hrlo]].
  rewrite Forall_forall in Hlo_all.
  assert (Hr0 : (lo <= Dates r0)%Z) by (apply Hlo_all; now apply in_map).
  assert (Hr0' : (Dates r0 <= lo)%Z) by (rewrite <- Elo; now apply Hleast).
  assert (E : le_NaT date (Some lo) = true) by (apply Z.leb_le; lia).
  rewrite E, iloc_first. simpl. exists r. repeat split; [now left|].
  pose proof (sorted_head_least _ _ Hsorted r0 Hin).
  pose proof (Hleast r (or_introl eq_refl)). lia.
Qed.

Lemma interpolate_price_at_or_after (rN : row) (date : datetime) :
  In rN (price_data self) ->
  (forall r, In r (price_data self) -> (Dates r <= Dates rN)%Z) ->
  (Dates rN <= date)%Z ->
  exists r, In r (price_data self) /\ Dates r = Dates rN /\
            interpolate_price self date = Ok (Prices r).
Proof.
  intros Hin Hgreatest Hdate. unfold interpolate_price.
  destruct (price_data self) as [|r0 l0] eqn:Erows; [contradiction|].
  destruct (column_min_nonempty (map Dates (r0 :: l0))) as [lo Hlo];
    [discriminate|].
  destruct (column_max_nonempty (map Dates (r0 :: l0))) as [hi Hhi];
    [discriminate|].
  rewrite Hlo, Hhi.
  destruct (column_min_spec _ _ Hlo) as [Hlo_in Hlo_all].
  destruct (column_max_spec _ _ Hhi) as [Hhi_in Hhi_all].
  rewrite Forall_forall in Hlo_all, Hhi_all.
  apply in_map_iff in Hhi_in as [rhi [Ehi Hrhi]].
  assert (Hhi' : hi = Dates rN).
  { pose proof (Hhi_all (Dates rN) (in_map Dates _ _ Hin)).
    pose proof (Hgreatest rhi Hrhi). lia. }
  destruct (le_NaT date (Some lo)) eqn:E1.
  - apply Z.leb_le in E1. rewrite iloc_first. simpl.
    exists r0. repeat split; [now left|].
    pose proof (Hlo_all (Dates r0) (or_introl eq_refl)).
    pose proof (Hgreatest r0 (or_introl eq_refl)). lia.
  - assert (E2 : ge_NaT date (Some hi) = true) by (apply Z.leb_le; lia).
    rewrite E2.
    destruct (@exists_last _ (r0 :: l0)) as [l' [r Hl']]; [discriminate|].
    rewrite Hl' in *. rewrite iloc_last. simpl.
    exists r. repeat split; [apply in_or_app; right; now left|].
    pose proof (sorted_last_greatest _ _ Hsorted rN Hin).
    assert (In r (l' ++ [r])) by (apply in_or_app; right; now left).
    pose proof (Hgreatest r H0). lia.
Qed.

Lemma interpolate_price_interior (rlo rhi : row) (date : datetime) :
  In rlo (price_data self) -> In rhi (price_data self) ->
  (Dates rlo < date < Dates rhi)%Z ->
  exists before after,
    nearest_at_or_before (price_data self) date before /\
    nearest_after (price_data self) date after /\
    interpolate_price self date =
      if (days (Dates after - Dates before) =? 0)%Z then Ok (Prices before)
      else
        let weight := inject_Z (days (date - Dates before))
                      / inject_Z (days (Dates after - Dates before)) in
        Ok (Prices before * (1 - weight) + Prices after * weight).
Proof.
  intros Hlo_in Hhi_in Hdate. unfold interpolate_price.
  set (rows := price_data self) in *.
  destruct (column_min_nonempty (map Dates rows)) as [lo Hlo].
  { destruct rows; [contradiction|discriminate]. }
  destruct (column_max_nonempty (map Dates rows)) as [hi Hhi].
  { destruct rows; [contradiction|discriminate]. }
  rewrite Hlo, Hhi.
  destruct (column_min_spec _ _ Hlo) as [_ Hlo_all].
  destruct (column_max_spec _ _ Hhi) as [_ Hhi_all].
  rewrite Forall_forall in Hlo_all, Hhi_all.
  pose proof (Hlo_all _ (in_map Dates _ _ Hlo_in)) as H1.
  pose proof (Hhi_all _ (in_map Dates _ _ Hhi_in)) as H2.
  assert (E1 : le_NaT date (Some lo) = false) by (apply Z.leb_gt; lia).
  assert (E2 : ge_NaT date (Some hi) = false) by (apply Z.leb_gt; lia).
  rewrite E1, E2.
  set (fb := fun r : row => (Dates r <=? date)%Z).
  set (fa := fun r : row => (date <? Dates r)%Z).
  destruct (iloc_last_nonempty (filter fb rows)) as [b Hb].
  { apply filter_nonempty with rlo; [exact Hlo_in|]. apply Z.leb_le. lia. }
  destruct (iloc_first_nonempty (filter fa rows)) as [a Ha].
  { apply filter_nonempty with rhi; [exact Hhi_in|]. apply Z.ltb_lt. lia. }
  rewrite Hb, Ha. simpl.
  exists b, a. split; [|split].
  - apply iloc_last_inv in Hb as [l' Hl'].
    assert (Hbin : In b (filter fb rows))
      by (rewrite Hl'; apply in_or_app; right; now left).
    apply filter_In in Hbin as [Hbin Hbd]. apply Z.leb_le in Hbd.
    repeat split; auto.
    intros r Hr Hrd.
    assert (Hs : StronglySorted (rel_of date_le) (l' ++ [b]))
      by (rewrite <- Hl'; now apply sorted_filter).
    apply (sorted_last_greatest _ _ Hs). rewrite <- Hl'.
    apply filter_In. split; [exact Hr|]. now apply Z.leb_le.
  - apply iloc_first_inv in Ha as [l' Hl'].
    assert (Hain : In a (filter fa rows)) by (rewrite Hl'; now left).
    apply filter_In in Hain as [Hain Had]. apply Z.ltb_lt in Had.
    repeat split; auto.
    intros r Hr Hrd.
    assert (Hs : StronglySorted (rel_of date_le) (a :: l'))
      by (rewrite <- Hl'; now apply sorted_filter).
    apply (sorted_head_least _ _ Hs). rewrite <- Hl'.
    apply filter_In. split; [exact Hr|]. now apply Z.ltb_lt.
  - destruct (days (Dates a - Dates b) =? 0)%Z; reflexivity.
Qed.
End SortedSeries.

Lemma nearest_at_or_before_unique (data : list row) (date : datetime)
    (b b' : row) :
  NoDup (map Dates data) ->
  nearest_at_or_before data date b -> nearest_at_or_before data date b' ->
  b = b'.
Proof.
  intros Hnd (Hin & Hd & Hmax) (Hin' & Hd' & Hmax').
  apply (unique_date_row data); auto.
  pose proof (Hmax b' Hin' Hd'). pose proof (Hmax' b Hin Hd). lia.
Qed.

Lemma nearest_after_unique (data : list row) (date : datetime) (a a' : row) :
  NoDup (map Dates data) ->
  nearest_after data date a -> nearest_after data date a' ->
  a = a'.
Proof.
  intros Hnd (Hin & Hd & Hmin) (Hin' & Hd' & Hmin').
  apply (unique_date_row data); auto.
  pose proof (Hmin a' Hin' Hd'). pose proof (Hmin' a Hin Hd). lia.
Qed.

Lemma nearest_at_or_before_sorted (data : list row) (date : datetime) (b : row) :
  nearest_at_or_before (sort_values_Dates data) date b ->
  nearest_at_or_before data date b.
Proof.
  intros (Hin & Hd & Hmax). repeat split; auto.
  - now apply sort_values_In.
  - intros r Hr. apply Hmax. now apply sort_values_In.
Qed.

Lemma nearest_after_sorted (data : list row) (date : datetime) (a : row) :
  nearest_after (sort_values_Dates data) date a ->
  nearest_after data date a.
Proof.
  intros (Hin & Hd & Hmin). repeat split; auto.
  - now apply sort_values_In.
  - intros r Hr. apply Hmin. now apply sort_values_In.
Qed.

Lemma midnight_days_pos (a b : datetime) :
  is_midnight a -> is_midnight b -> (b < a)%Z -> (0 < days (a - b))%Z.
Proof.
  unfold is_midnight, days. intros Ha Hb Hlt.
  assert (HD : (0 < us_per_day)%Z) by reflexivity.
  apply Z.div_exact in Ha; [|lia]. apply Z.div_exact in Hb; [|lia].
  set (ka := (a / us_per_day)%Z) in *. set (kb := (b / us_per_day)%Z) in *.
  replace (a - b)%Z with ((ka - kb) * us_per_day)%Z by lia.
  rewrite Z.div_mul by lia. nia.
Qed.

Lemma days_zero : days 0 = 0%Z.
Proof. reflexivity. Qed.

(** C8: at or before the earliest observed date the lookup returns the
    earliest observed price, and at or after the latest observed date it
    returns the latest observed price. *)
Theorem flat_extrapolation (data : list row) (cost : Q) (earliest latest : row) :
  NoDup (map Dates data) ->
  In earliest data -> In latest data ->
  (forall r, In r data -> (Dates earliest <= Dates r <= Dates latest)%Z) ->
  (forall date, (date <= Dates earliest)%Z ->
     interpolate_price (__init__ data cost) date = Ok (Prices earliest)) /\
  (forall date, (Dates latest <= date)%Z ->
     interpolate_price (__init__ data cost) date = Ok (Prices latest)).
Proof.
  intros Hnd He Hl Hall.
  pose proof (sort_values_sorted data) as Hs.
  split; intros date Hdate.
  - destruct (interpolate_price_at_or_before (__init__ data cost) Hs
                earliest date) as (r & Hr & Hrd & ->).
    + now apply sort_values_In.
    + intros r Hr. simpl in Hr. apply (proj1 (sort_values_In _ _)) in Hr.
      pose proof (Hall r Hr). lia.
    + exact Hdate.
    + simpl in Hr. apply (proj1 (sort_values_In _ _)) in Hr.
      now rewrite (unique_date_row data r earliest Hnd Hr He Hrd).
  - destruct (interpolate_price_at_or_after (__init__ data cost) Hs
                latest date) as (r & Hr & Hrd & ->).
    + now apply sort_values_In.
    + intros r Hr. simpl in Hr. apply (proj1 (sort_values_In _ _)) in Hr.
      pose proof (Hall r Hr). lia.
    + exact Hdate.
    + simpl in Hr. apply (proj1 (sort_values_In _ _)) in Hr.
      now rewrite (unique_date_row data r latest Hnd Hr Hl Hrd).
Qed.

Lemma two_points_NoDup : NoDup (map Dates two_points).
Proof.
  repeat constructor; simpl; intuition discriminate.
Defined.

Lemma flat_extrapolation_witness :
  interpolate_price (__init__ two_points (1#100)) (datetime_ymd 2020 12 25)
    = Ok 10 /\
  interpolate_price (__init__ two_points (1#100)) (datetime_ymd 2021 1 11)
    = Ok 20.
Proof.
  destruct (flat_extrapolation two_points (1#100)
              (datetime_ymd 2021 1 1, 10) (datetime_ymd 2021 1 11, 20))
    as [H1 H2].
  - exact two_points_NoDup.
  - now left.
  - right; now left.
  - intros r [<-|[<-|[]]]; decide_dates.
  - split; [apply H1|apply H2]; decide_dates.
Defined.

(** C5: strictly inside the observed range the lookup returns
    before.price * (1 - weight) + after.price * weight, with
    weight = days(before, query) / days(before, after) in whole days, for
    the nearest observed row at or before the query date and the nearest
    one after it; on the series (2021-01-01, 10.0), (2021-01-11, 20.0) the
    price on 2021-01-06 is 15.0. *)
Theorem linear_interpolation :
  (forall (data : list row) (cost : Q) (date lo hi : datetime)
          (before after : row),
     NoDup (map Dates data) ->
     Forall is_midnight (map Dates data) ->
     column_min (map Dates data) = Some lo ->
     column_max (map Dates data) = Some hi ->
     (lo < date < hi)%Z ->
     nearest_at_or_before data date before ->
     nearest_after data date after ->
     let weight := inject_Z (days (date - Dates before))
                   / inject_Z (days (Dates after - Dates before)) in
     interpolate_price (__init__ data cost) date
       = Ok (Prices before * (1 - weight) + Prices after * weight)) /\
  (forall cost : Q,
     returns (interpolate_price (__init__ two_points cost)
                                (datetime_ymd 2021 1 6)) 15).
Proof.
  split.
  - intros data cost date lo hi before after Hnd Hmid Hlo Hhi Hdate Hb Ha weight.
    destruct (column_min_spec _ _ Hlo) as [Hlo_in _].
    destruct (column_max_spec _ _ Hhi) as [Hhi_in _].
    apply in_map_iff in Hlo_in as [rlo [Elo Hrlo]].
    apply in_map_iff in Hhi_in as [rhi [Ehi Hrhi]].
    destruct (interpolate_price_interior (__init__ data cost)
                (sort_values_sorted data) rlo rhi date)
      as (b & a & Hb' & Ha' & ->).
    + now apply sort_values_In.
    + now apply sort_values_In.
    + lia.
    + simpl in Hb', Ha'.
      apply nearest_at_or_before_sorted in Hb'.
      apply nearest_after_sorted in Ha'.
      rewrite (nearest_at_or_before_unique data date b before Hnd Hb' Hb).
      rewrite (nearest_after_unique data date a after Hnd Ha' Ha).
      assert (Hpos : (0 < days (Dates after - Dates before))%Z).
      { rewrite Forall_forall in Hmid.
        destruct Hb as (Hbin & Hbd & _), Ha as (Hain & Had & _).
        apply midnight_days_pos; [| |lia]; apply Hmid; now apply in_map. }
      assert (E : (days (Dates after - Dates before) =? 0)%Z = false)
        by (apply Z.eqb_neq; lia).
      now rewrite E.
  - intros cost. vm_compute. reflexivity.
Qed.

Lemma linear_interpolation_witness :
  interpolate_price (__init__ two_points (1#100)) (datetime_ymd 2021 1 4)
  = Ok (10 * (1 - inject_Z 3 / inject_Z 10) + 20 * (inject_Z 3 / inject_Z 10)).
Proof.
  apply (proj1 linear_interpolation two_points (1#100) (datetime_ymd 2021 1 4)
           (datetime_ymd 2021 1 1) (datetime_ymd 2021 1 11)
           (datetime_ymd 2021 1 1, 10) (datetime_ymd 2021 1 11, 20)).
  - exact two_points_NoDup.
  - repeat constructor.
  - reflexivity.
  - reflexivity.
  - decide_dates.
  - split; [now left|]. split; [decide_dates|].
    intros r [<-|[<-|[]]]; decide_dates.
  - split; [right; now left|]. split; [decide_dates|].
    intros r [<-|[<-|[]]]; decide_dates.
Defined.

(** C10: with unique dates, the lookup at an observed date returns that
    date's observed price. *)
Theorem observed_points_fixed (data : list row) (cost : Q) (d : datetime)
    (p : Q) :
  NoDup (map Dates data) ->
  In (d, p) data ->
  returns (interpolate_price (__init__ data cost) d) p.
Proof.
  intros Hnd Hin.
  pose proof (sort_values_sorted data) as Hs.
  assert (Hne : map Dates data <> []) by (destruct data; [contradiction|discriminate]).
  destruct (column_min_nonempty _ Hne) as [lo Hlo].
  destruct (column_max_nonempty _ Hne) as [hi Hhi].
  destruct (column_min_spec _ _ Hlo) as [Hlo_in Hlo_all].
  destruct (column_max_spec _ _ Hhi) as [Hhi_in Hhi_all].
  rewrite Forall_forall in Hlo_all, Hhi_all.
  apply in_map_iff in Hlo_in as [rlo [Elo Hrlo]].
  apply in_map_iff in Hhi_in as [rhi [Ehi Hrhi]].
  assert (Hd_lo : (lo <= d)%Z) by (apply Hlo_all; now apply (in_map Dates _ (d, p))).
  assert (Hd_hi : (d <= hi)%Z) by (apply Hhi_all; now apply (in_map Dates _ (d, p))).
  destruct (Z.eq_dec d lo) as [E1|N1]; [|destruct (Z.eq_dec d hi) as [E2|N2]].
  - destruct (interpolate_price_at_or_before (__init__ data cost) Hs
                (d, p) d) as (r & Hr & Hrd & ->).
    + now apply sort_values_In.
    + intros r Hr. simpl in Hr. apply (proj1 (sort_values_In _ _)) in Hr. simpl. rewrite E1.
      apply Hlo_all. now apply in_map.
    + simpl. lia.
    + simpl in Hr. apply (proj1 (sort_values_In _ _)) in Hr.
      rewrite (unique_date_row data r (d, p) Hnd Hr Hin Hrd).
      simpl. reflexivity.
  - destruct (interpolate_price_at_or_after (__init__ data cost) Hs
                (d, p) d) as (r & Hr & Hrd & ->).
    + now apply sort_values_In.
    + intros r Hr. simpl in Hr. apply (proj1 (sort_values_In _ _)) in Hr. simpl. rewrite E2.
      apply Hhi_all. now apply in_map.
    + simpl. lia.
    + simpl in Hr. apply (proj1 (sort_values_In _ _)) in Hr.
      rewrite (unique_date_row data r (d, p) Hnd Hr Hin Hrd).
      simpl. reflexivity.
  - destruct (interpolate_price_interior (__init__ data cost) Hs rlo rhi d)
      as (b & a & Hb & Ha & ->).
    + now apply sort_values_In.
    + now apply sort_values_In.
    + lia.
    + simpl in Hb. apply nearest_at_or_before_sorted in Hb.
      assert (Hself : nearest_at_or_before data d (d, p)).
      { repeat split; [exact Hin|simpl; lia|]. intros r _ Hr. exact Hr. }
      rewrite (nearest_at_or_before_unique data d b (d, p) Hnd Hb Hself).
      simpl Dates. simpl Prices.
      destruct (days (Dates a - d) =? 0)%Z; simpl.
      * reflexivity.
      * rewrite Z.sub_diag, days_zero. unfold Qdiv.
        change (inject_Z 0) with 0. ring.
Qed.

Lemma observed_points_fixed_witness :
  returns (interpolate_price (__init__ two_points (1#100))
                             (datetime_ymd 2021 1 11)) 20.
Proof.
  apply (observed_points_fixed two_points (1#100) (datetime_ymd 2021 1 11) 20).
  - exact two_points_NoDup.
  - right; now left.
Defined.

(** ** Storage cost *)

Lemma storage_cost_loop_step (rate : Q) (d1 d2 : datetime) (v1 v2 : Q)
    (l : list sample) (total_cost : Q) :
  storage_cost_loop rate ((d1, v1) :: (d2, v2) :: l) total_cost
  = storage_cost_loop rate ((d2, v2) :: l)
      (total_cost + v1 * rate * inject_Z (days (d2 - d1))).
Proof. reflexivity. Qed.

Lemma storage_cost_spec_step (rate : Q) (d1 d2 : datetime) (v1 v2 : Q)
    (l : list sample) :
  storage_cost_spec rate ((d1, v1) :: (d2, v2) :: l)
  = v1 * inject_Z (days (d2 - d1)) * rate
    + storage_cost_spec rate ((d2, v2) :: l).
Proof. reflexivity. Qed.

Lemma storage_cost_loop_spec (rate : Q) (inventory_schedule : list sample)
    (total_cost : Q) :
  storage_cost_loop rate inventory_schedule total_cost
  == total_cost + storage_cost_spec rate inventory_schedule.
Proof.
  revert total_cost.
  induction inventory_schedule as [|[d1 v1] l IH]; intros total_cost.
  - unfold storage_cost_spec. simpl. ring.
  - destruct l as [|[d2 v2] l'].
    + unfold storage_cost_spec. simpl. ring.
    + rewrite storage_cost_loop_step, IH, storage_cost_spec_step.
      unfold sample.
      generalize (inject_Z (days (d2 - d1))),
                 (storage_cost_spec rate ((d2, v2) :: l')).
      intros n rest. ring.
Qed.

(** C6: the storage cost is the sum, over the pairs of neighbouring samples,
    of the leading sample's level times the whole days between the two
    dates times the cost rate. *)
Theorem storage_cost_is_step_sum (self : GasStoragePricer)
    (inventory_schedule : list sample) :
  calculate_storage_costs self inventory_schedule
  == storage_cost_spec (storage_cost_per_unit_per_day self) inventory_schedule.
Proof.
  unfold calculate_storage_costs. rewrite storage_cost_loop_spec. ring.
Qed.

Lemma days_nonneg (delta : Z) : (0 <= delta)%Z -> (0 <= days delta)%Z.
Proof. intros H. unfold days. apply Z.div_pos; [exact H|reflexivity]. Qed.

Lemma storage_cost_spec_nonneg (rate : Q) (inventory_schedule : list sample) :
  0 <= rate ->
  Forall (fun s : sample => 0 <= snd s) inventory_schedule ->
  dates_ascending inventory_schedule ->
  0 <= storage_cost_spec rate inventory_schedule.
Proof.
  intros Hrate. induction inventory_schedule as [|[d1 v1] l IH]; intros Hlev Hasc.
  - unfold storage_cost_spec. simpl. lra.
  - destruct l as [|[d2 v2] l'].
    + unfold storage_cost_spec. simpl. lra.
    + rewrite storage_cost_spec_step.
      inversion Hlev as [|? ? Hv1 Hlev']; subst.
      inversion Hasc as [|? ? Hasc' Hhd]; subst.
      inversion Hhd as [|? ? Hd]; subst. simpl in Hv1, Hd.
      specialize (IH Hlev' Hasc').
      assert (Hdays : 0 <= inject_Z (days (d2 - d1))).
      { change 0 with (inject_Z 0). rewrite <- Zle_Qle.
        apply days_nonneg. lia. }
      assert (Hterm : 0 <= v1 * inject_Z (days (d2 - d1)) * rate).
      { apply Qmult_le_0_compat; [apply Qmult_le_0_compat|]; assumption. }
      apply Qle_trans with (0 + 0); [lra|].
      apply Qplus_le_compat; [exact Hterm|exact IH].
Qed.

(** C7 as the code has it: the storage cost is not negative when the cost
    rate and every inventory level are not negative and the sample dates
    never go back in time. *)
Theorem storage_cost_nonneg (self : GasStoragePricer)
    (inventory_schedule : list sample) :
  0 <= storage_cost_per_unit_per_day self ->
  Forall (fun s : sample => 0 <= snd s) inventory_schedule ->
  dates_ascending inventory_schedule ->
  0 <= calculate_storage_costs self inventory_schedule.
Proof.
  intros Hrate Hlev Hasc. unfold calculate_storage_costs.
  rewrite storage_cost_loop_spec.
  pose proof (storage_cost_spec_nonneg _ _ Hrate Hlev Hasc). lra.
Qed.

Lemma storage_cost_nonneg_witness :
  0 <= calculate_storage_costs (__init__ two_points (1#100))
         [(datetime_ymd 2021 1 1, 0); (datetime_ymd 2021 1 2, 50);
          (datetime_ymd 2021 1 10, 0)].
Proof.
  apply storage_cost_nonneg.
  - simpl. lra.
  - repeat constructor; simpl; lra.
  - repeat constructor; decide_dates.
Defined.

(** C7 fails as stated: every level of [backwards_schedule] and the rate are
    not negative, and the storage cost is negative (5 units over -9 days);
    the valuation of [late_contract] yields such a schedule, its last
    interval running back from 2021-01-10 to the contract end, at a
    storage cost of -2.5. *)
Lemma storage_cost_negative :
  (Forall (fun s : sample => 0 <= snd s) backwards_schedule /\
   0 <= storage_cost_per_unit_per_day (__init__ two_points 1) /\
   calculate_storage_costs (__init__ two_points 1) backwards_schedule == -45) /\
  (exists res,
     fst (price_contract_for (__init__ two_points (1#100)) late_contract None)
     = Ok res /\
     Forall (fun s : sample => 0 <= snd s) (inventory_schedule res) /\
     storage_costs res == - (5 # 2)).
Proof.
  split; [split; [|split]|].
  - repeat constructor; simpl; lra.
  - simpl. lra.
  - reflexivity.
  - eexists. split; [vm_compute; reflexivity|]. split.
    + repeat constructor; simpl; lra.
    + reflexivity.
Qed.

(** ** Comparisons and [min] *)

Lemma Qltb_lt (x y : Q) : Qltb x y = true <-> x < y.
Proof.
  unfold Qltb. rewrite negb_true_iff. split.
  - intros H. apply Qnot_le_lt. intros Hle.
    apply Qle_bool_iff in Hle. congruence.
  - intros H. destruct (Qle_bool y x) eqn:E; [|reflexivity].
    apply Qle_bool_iff in E. exfalso. now apply (Qlt_not_le x y).
Qed.

Lemma Qltb_ge (x y : Q) : Qltb x y = false <-> y <= x.
Proof.
  unfold Qltb. rewrite negb_false_iff. apply Qle_bool_iff.
Qed.

Lemma min_pos (a b : Q) : 0 < min_ a b -> 0 < a.
Proof.
  unfold min_. destruct (Qltb b a) eqn:E; [|auto].
  apply Qltb_lt in E. intros H. now apply Qlt_trans with b.
Qed.

Lemma min_pos_intro (a b : Q) : 0 < a -> 0 < b -> 0 < min_ a b.
Proof. unfold min_. now destruct (Qltb b a). Qed.

Lemma min_le_l (a b : Q) : min_ a b <= a.
Proof.
  unfold min_. destruct (Qltb b a) eqn:E.
  - apply Qltb_lt in E. now apply Qlt_le_weak.
  - apply Qle_refl.
Qed.

Lemma min_le_r (a b : Q) : min_ a b <= b.
Proof.
  unfold min_. destruct (Qltb b a) eqn:E.
  - apply Qle_refl.
  - now apply Qltb_ge in E.
Qed.

(** ** The injection loop *)

Lemma injection_step_counter (rate max_volume : Q) (wps : list row)
    (st : Q * list proposal) (ip : row) :
  fst (injection_step rate max_volume wps st ip) = fst st.
Proof.
  unfold injection_step. destruct st as [cur all], ip as [d p].
  destruct (negb _ && _); [|reflexivity].
  destruct (Qltb 0 (min_ _ _)); reflexivity.
Qed.

Lemma injection_loop_counter (rate max_volume : Q) (wps ips : list row)
    (st : Q * list proposal) :
  fst (fold_left (injection_step rate max_volume wps) ips st) = fst st.
Proof.
  revert st. induction ips as [|ip ips IH]; intros st; cbn [fold_left];
    [reflexivity|].
  now rewrite IH, injection_step_counter.
Qed.

Lemma injection_pass_counter (rate max_volume : Q) (ips wps : list row) :
  fst (injection_pass rate max_volume ips wps) = 0.
Proof. unfold injection_pass. now rewrite injection_loop_counter. Qed.

Lemma injection_step_proposals (rate max_volume : Q) (ips0 wps : list row)
    (all : list proposal) (ip : row) :
  In ip ips0 ->
  Forall (injection_proposal rate max_volume ips0 wps) all ->
  Forall (injection_proposal rate max_volume ips0 wps)
         (snd (injection_step rate max_volume wps (0, all) ip)).
Proof.
  intros Hip Hall. unfold injection_step. destruct ip as [d p].
  destruct (negb _ && _) eqn:E; [|exact Hall].
  destruct (Qltb 0 (min_ _ _)) eqn:Ev; [|exact Hall].
  simpl. apply Forall_app. split; [exact Hall|].
  constructor; [|constructor].
  apply andb_true_iff in E as [Epw Ecap].
  apply Qltb_lt in Ev, Ecap.
  unfold injection_proposal. simpl.
  repeat split; auto.
  destruct (profitable_withdrawals wps d p) as [|w ws] eqn:Ew;
    [discriminate|].
  assert (Hw : In w (profitable_withdrawals wps d p)) by (rewrite Ew; now left).
  apply filter_In in Hw as [Hw Hc]. apply andb_true_iff in Hc as [Hc1 Hc2].
  exists w. repeat split; [exact Hw|now apply Qltb_lt|now apply Z.ltb_lt].
Qed.

Lemma injection_loop_proposals (rate max_volume : Q) (ips0 wps ips : list row)
    (all : list proposal) :
  incl ips ips0 ->
  Forall (injection_proposal rate max_volume ips0 wps) all ->
  Forall (injection_proposal rate max_volume ips0 wps)
         (snd (fold_left (injection_step rate max_volume wps) ips (0, all))).
Proof.
  revert all. induction ips as [|ip ips IH]; intros all Hincl Hall;
    cbn [fold_left]; [exact Hall|].
  pose proof (injection_step_counter rate max_volume wps (0, all) ip) as Hc.
  pose proof (injection_step_proposals rate max_volume ips0 wps all ip
                (Hincl ip (or_introl eq_refl)) Hall) as Hp.
  destruct (injection_step rate max_volume wps (0, all) ip) as [cur all'].
  simpl in Hc, Hp. subst cur.
  apply IH; [|exact Hp]. intros x Hx. apply Hincl. now right.
Qed.

Lemma injection_pass_proposals (rate max_volume : Q) (ips wps : list row) :
  Forall (injection_proposal rate max_volume ips wps)
         (snd (injection_pass rate max_volume ips wps)).
Proof.
  unfold injection_pass. apply injection_loop_proposals;
    [apply incl_refl|constructor].
Qed.

(** C1, on the code: the first loop never adds an accepted proposal to its
    counter, which is still 0 when the loop ends; with rate 60 and
    capacity 100 it proposes 60 for both candidates, 120 in all, where a
    counter that grew would leave room for 40 only; the execution loop then
    drops the second injection, and 60 units are stored, not 100. *)
Theorem injection_counter_never_advances :
  (forall (rate max_volume : Q) (injection_prices withdrawal_prices : list row),
     fst (injection_pass rate max_volume injection_prices withdrawal_prices)
     = 0) /\
  injection_pass 60 100 [(jan 2, 11); (jan 3, 12)] [(jan 10, 19)]
  = (0, [ {| p_date := jan 2; p_operation := inject;
             p_volume := 60; p_price := 11 |};
          {| p_date := jan 3; p_operation := inject;
             p_volume := 60; p_price := 12 |} ]) /\
  (exists res,
     fst (price_contract_for (__init__ two_points (1#100)) example_contract
            None) = Ok res /\
     map (fun o => (op_date o, op_operation o, op_volume o)) (strategy res)
     = [(jan 2, inject, 60); (jan 10, withdraw, 60)]).
Proof.
  split; [|split].
  - intros. apply injection_pass_counter.
  - vm_compute. reflexivity.
  - eexists. split; vm_compute; reflexivity.
Qed.

(** ** The withdrawal loop *)

Lemma price_ge_total (a b : row) : price_ge a b = true \/ price_ge b a = true.
Proof.
  unfold price_ge. rewrite !Qle_bool_iff.
  destruct (Qlt_le_dec (snd a) (snd b)) as [H|H]; [right|left]; auto.
  now apply Qlt_le_weak.
Qed.

Lemma price_ge_trans (a b c : row) :
  price_ge a b = true -> price_ge b c = true -> price_ge a c = true.
Proof.
  unfold price_ge. rewrite !Qle_bool_iff. intros H1 H2.
  now apply Qle_trans with (snd b).
Qed.

Lemma price_le_total (a b : row) : price_le a b = true \/ price_le b a = true.
Proof. apply (price_ge_total b a). Qed.

Lemma price_le_trans (a b c : row) :
  price_le a b = true -> price_le b c = true -> price_le a c = true.
Proof. intros H1 H2. apply (price_ge_trans c b a); assumption. Qed.

(** The proposals that one iteration of the second loop appends. *)
Lemma withdrawal_step_appends (rate : Q) (all : list proposal) (wp : row) :
  withdrawal_step rate all wp
  = all ++
    (if negb (is_empty (prior_injections all (fst wp)))
        && Qltb 0 (sum (map p_volume (prior_injections all (fst wp))))
     then [ {| p_date := fst wp; p_operation := withdraw;
               p_volume :=
                 min_ rate (sum (map p_volume (prior_injections all (fst wp))));
               p_price := snd wp |} ]
     else []).
Proof.
  unfold withdrawal_step. destruct wp as [d p]. simpl fst. simpl snd.
  destruct (negb (is_empty (prior_injections all d))); simpl;
    [|now rewrite app_nil_r].
  destruct (Qltb 0 _); [reflexivity|now rewrite app_nil_r].
Qed.

Lemma prior_injections_app (all more : list proposal) (d : datetime) :
  Forall (fun p => p_operation p = withdraw) more ->
  prior_injections (all ++ more) d = prior_injections all d.
Proof.
  intros Hw. unfold prior_injections. rewrite filter_app.
  rewrite <- app_nil_r. f_equal.
  induction Hw as [|p more Hp _ IH]; simpl; [reflexivity|].
  rewrite Hp. simpl. now rewrite andb_false_r.
Qed.

Lemma prior_injections_earlier (injections : list proposal) (d : datetime) :
  Forall (fun p => p_operation p = inject) injections ->
  prior_injections injections d = earlier_injections injections d.
Proof.
  intros Hi. unfold prior_injections, earlier_injections.
  induction Hi as [|p l Hp _ IH]; simpl; [reflexivity|].
  rewrite Hp, IH. simpl. now rewrite andb_true_r.
Qed.

Lemma withdrawal_of_withdraws (rate : Q) (all : list proposal) (wp : row) :
  Forall (fun p => p_operation p = withdraw) (withdrawal_of rate all wp).
Proof.
  unfold withdrawal_of. destruct (negb _ && _); repeat constructor.
Qed.

Lemma withdrawal_of_app (rate : Q) (all more : list proposal) (wp : row) :
  Forall (fun p => p_operation p = withdraw) more ->
  withdrawal_of rate (all ++ more) wp = withdrawal_of rate all wp.
Proof.
  intros Hw. unfold withdrawal_of. now rewrite prior_injections_app.
Qed.

Lemma withdrawal_pass_appends (rate : Q) (wps : list row)
    (all : list proposal) :
  withdrawal_pass rate wps all = all ++ flat_map (withdrawal_of rate all) wps.
Proof.
  unfold withdrawal_pass. revert all.
  induction wps as [|wp wps IH]; intros all; cbn [fold_left flat_map].
  - now rewrite app_nil_r.
  - rewrite IH, withdrawal_step_appends. fold (withdrawal_of rate all wp).
    rewrite <- app_assoc. f_equal. f_equal.
    apply flat_map_ext. intros w.
    apply withdrawal_of_app, withdrawal_of_withdraws.
Qed.

Lemma injection_pass_injects (rate max_volume : Q) (ips wps : list row) :
  Forall (fun p => p_operation p = inject)
         (snd (injection_pass rate max_volume ips wps)).
Proof.
  eapply Forall_impl; [|apply injection_pass_proposals].
  intros p Hp. apply Hp.
Qed.

(** C2: the withdrawal candidates are visited by descending resolved
    price, and for each of them the second loop appends a withdrawal of
    min(rate, gross volume of the injection proposals dated earlier)
    exactly when there are such proposals and their gross volume is
    positive; withdrawals proposed before do not enter the figure. *)
Theorem withdrawal_pass_gross (rate max_volume : Q)
    (injection_prices withdrawal_prices : list row) :
  let visited := stable_sort price_ge withdrawal_prices in
  let injections :=
    snd (injection_pass rate max_volume
           (stable_sort price_le injection_prices) visited) in
  StronglySorted (fun a b : row => snd b <= snd a) visited /\
  Permutation withdrawal_prices visited /\
  withdrawal_pass rate visited injections
  = injections ++ flat_map (withdrawal_for rate injections) visited.
Proof.
  intros visited injections. split; [|split].
  - pose proof (stable_sort_sorted price_ge price_ge_total price_ge_trans
                  withdrawal_prices) as Hs.
    fold visited in Hs. induction Hs as [|a l Hs IH Hall]; constructor; auto.
    eapply Forall_impl; [|exact Hall].
    intros b Hb. now apply Qle_bool_iff.
  - apply stable_sort_perm.
  - rewrite withdrawal_pass_appends. f_equal.
    apply flat_map_ext. intros w.
    unfold withdrawal_of, withdrawal_for.
    rewrite prior_injections_earlier; [reflexivity|].
    apply injection_pass_injects.
Qed.

(** ** The proposals that reach the execution loop *)

Lemma propose_unfold (rate max_volume : Q) (ips wps : list row) :
  propose rate max_volume ips wps
  = sort_by_date
      (snd (injection_pass rate max_volume (stable_sort price_le ips)
              (stable_sort price_ge wps))
       ++ flat_map
            (withdrawal_of rate
               (snd (injection_pass rate max_volume (stable_sort price_le ips)
                       (stable_sort price_ge wps))))
            (stable_sort price_ge wps)).
Proof. unfold propose. now rewrite withdrawal_pass_appends. Qed.

Lemma withdrawal_of_volume (rate max_volume : Q) (ips wps : list row)
    (all : list proposal) (wp : row) :
  Forall (injection_proposal rate max_volume ips wps) all ->
  Forall (fun p => 0 < p_volume p) (withdrawal_of rate all wp).
Proof.
  intros Hall. unfold withdrawal_of.
  destruct (negb _ && _) eqn:E; [|constructor].
  apply andb_true_iff in E as [Hne Hpos]. apply Qltb_lt in Hpos.
  constructor; [|constructor]. simpl.
  destruct (prior_injections all (fst wp)) as [|q prior] eqn:Eq;
    [discriminate|].
  assert (Hq : In q all).
  { assert (H : In q (prior_injections all (fst wp))) by (rewrite Eq; now left).
    now apply filter_In in H. }
  rewrite Forall_forall in Hall.
  destruct (Hall q Hq) as (_ & _ & Hv & Hvpos & _).
  rewrite Hv in Hvpos. apply min_pos in Hvpos.
  now apply min_pos_intro.
Qed.

Lemma propose_volumes (rate max_volume : Q) (ips wps : list row) :
  Forall (fun p => 0 < p_volume p) (propose rate max_volume ips wps).
Proof.
  rewrite propose_unfold. apply stable_sort_Forall, Forall_app. split.
  - eapply Forall_impl; [|apply injection_pass_proposals].
    intros p Hp. apply Hp.
  - apply Forall_flat_map, Forall_forall. intros w _.
    eapply withdrawal_of_volume, injection_pass_proposals.
Qed.

Lemma propose_nothing (rate max_volume : Q) (ips wps : list row) :
  rate <= 0 \/ max_volume <= 0 -> propose rate max_volume ips wps = [].
Proof.
  intros Hbad. rewrite propose_unfold.
  pose proof (injection_pass_proposals rate max_volume
                (stable_sort price_le ips) (stable_sort price_ge wps)) as Hp.
  destruct (snd (injection_pass rate max_volume (stable_sort price_le ips)
                   (stable_sort price_ge wps))) as [|p all].
  - simpl. clear Hp.
    assert (E : forall l, flat_map (withdrawal_of rate []) l = []).
    { induction l as [|w l IH]; [reflexivity|]. simpl. exact IH. }
    now rewrite E.
  - exfalso. inversion Hp as [|? ? (_ & _ & Hv & Hvpos & Hmax & _) _]; subst.
    rewrite Hv in Hvpos. apply min_pos in Hvpos.
    destruct Hbad as [H|H].
    + now apply (Qlt_not_le 0 rate).
    + now apply (Qlt_not_le 0 max_volume).
Qed.

(** ** The execution loop *)

Lemma execute_step_inventory (max_volume : Q) (st : exec_state) (p : proposal) :
  current_inventory (execute_step max_volume st p)
  = match p_operation p with
    | inject =>
        if Qle_bool (current_inventory st + p_volume p) max_volume
        then current_inventory st + p_volume p
        else current_inventory st
    | withdraw =>
        if Qle_bool (p_volume p) (current_inventory st)
        then current_inventory st - p_volume p
        else current_inventory st
    | liquidate => current_inventory st
    end.
Proof.
  unfold execute_step. destruct (p_operation p); [| |reflexivity].
  - now destruct (Qle_bool _ _).
  - now destruct (Qle_bool _ _).
Qed.

Lemma execute_step_schedule (max_volume : Q) (st : exec_state) (p : proposal) :
  schedule (execute_step max_volume st p)
  = schedule st ++ [(p_date p, current_inventory (execute_step max_volume st p))].
Proof.
  unfold execute_step. destruct (p_operation p); [| |reflexivity].
  - now destruct (Qle_bool _ _).
  - now destruct (Qle_bool _ _).
Qed.

Lemma execute_step_inv (max_volume : Q) (st : exec_state) (p : proposal) :
  0 < p_volume p ->
  exec_inv max_volume st -> exec_inv max_volume (execute_step max_volume st p).
Proof.
  intros Hv [Hcur Hsch].
  assert (Hnew : 0 <= current_inventory (execute_step max_volume st p)
                 <= max_volume).
  { rewrite execute_step_inventory. destruct (p_operation p); [| |exact Hcur].
    - destruct (Qle_bool _ _) eqn:E; [|exact Hcur].
      apply Qle_bool_iff in E. split; [lra|exact E].
    - destruct (Qle_bool _ _) eqn:E; [|exact Hcur].
      apply Qle_bool_iff in E. split; lra. }
  split; [exact Hnew|].
  rewrite execute_step_schedule. apply Forall_app. split; [exact Hsch|].
  constructor; [exact Hnew|constructor].
Qed.

Lemma execute_loop_inv (max_volume : Q) (all : list proposal) (st : exec_state) :
  Forall (fun p => 0 < p_volume p) all ->
  exec_inv max_volume st ->
  exec_inv max_volume (fold_left (execute_step max_volume) all st).
Proof.
  intros Hall. revert st.
  induction Hall as [|p all Hp _ IH]; intros st Hst; cbn [fold_left];
    [exact Hst|].
  apply IH. now apply execute_step_inv.
Qed.

Lemma execute_inv (max_volume : Q) (contract_start : datetime)
    (all : list proposal) :
  0 <= max_volume ->
  Forall (fun p => 0 < p_volume p) all ->
  exec_inv max_volume (execute max_volume contract_start all).
Proof.
  intros Hmax Hall. unfold execute. apply execute_loop_inv; [exact Hall|].
  split; simpl; [lra|]. constructor; [|constructor].
  unfold within_capacity. simpl. lra.
Qed.

(** ** The whole valuation *)

Lemma mapM_inv {A B : Type} (f : A -> result B) (l : list A) (l' : list B) :
  mapM f l = Ok l' -> Forall2 (fun a b => f a = Ok b) l l'.
Proof.
  revert l'. induction l as [|a l IH]; intros l'; cbn [mapM].
  - intros [= <-]. constructor.
  - destruct (f a) as [b|e] eqn:Ea; cbn [bind]; [|discriminate].
    destruct (mapM f l) as [bs|e]; cbn [bind]; [|discriminate].
    intros [= <-]. constructor; auto.
Qed.

Lemma getitem_In (pm : list (datetime * Q)) (d : datetime) (p : Q) :
  getitem pm d = Ok p -> In (d, p) pm.
Proof.
  induction pm as [|[k v] pm IH]; simpl; [discriminate|].
  destruct (k =? d)%Z eqn:E.
  - apply Z.eqb_eq in E. intros [= <-]. left. now subst.
  - intros H. right. auto.
Qed.

Lemma price_map_resolved (self : GasStoragePricer) (dates : list datetime)
    (pm : list (datetime * Q)) :
  mapM (fun date => p <- interpolate_price self date ;; Ok (date, p)) dates
  = Ok pm ->
  Forall2 (resolved self) dates pm.
Proof.
  intros H. apply mapM_inv in H.
  induction H as [|d item dates pm Hd _ IH]; constructor; [|exact IH].
  destruct (interpolate_price self d) as [p|e] eqn:E; cbn [bind] in Hd;
    [|discriminate].
  injection Hd as <-. now split.
Qed.

Lemma lookups_resolved (self : GasStoragePricer) (all_dates dates : list datetime)
    (pm : list (datetime * Q)) (prices : list row) :
  Forall2 (resolved self) all_dates pm ->
  mapM (fun date => p <- getitem pm date ;; Ok (date, p)) dates = Ok prices ->
  Forall2 (resolved self) dates prices.
Proof.
  intros Hpm H. apply mapM_inv in H.
  induction H as [|d item dates prices Hd _ IH]; constructor; [|exact IH].
  destruct (getitem pm d) as [p|e] eqn:E; cbn [bind] in Hd; [|discriminate].
  injection Hd as <-. split; [reflexivity|]. simpl.
  apply getitem_In in E. clear - Hpm E.
  induction Hpm as [|d0 item0 l l' [Hk Hv] _ IH]; [contradiction|].
  destruct E as [->|E]; [|auto]. simpl in Hk, Hv. now subst.
Qed.

(** What a returned result is made of: the candidates' resolved prices go
    through the proposal stage and the execution loop, and the schedule is
    the loop's schedule followed by the sample at the contract end. *)
Lemma optimize_storage_strategy_inv (self : GasStoragePricer)
    (injection_dates withdrawal_dates : list datetime)
    (rate max_volume : Q) (contract_start contract_end : datetime)
    (res : ValuationResult) :
  optimize_storage_strategy self injection_dates withdrawal_dates
    rate max_volume contract_start contract_end = Ok res ->
  exists ips wps,
    Forall2 (resolved self) injection_dates ips /\
    Forall2 (resolved self) withdrawal_dates wps /\
    inventory_schedule res
    = schedule (execute max_volume contract_start
                  (propose rate max_volume ips wps))
      ++ [(contract_end, 0)].
Proof.
  unfold optimize_storage_strategy.
  destruct (mapM _ (sorted_set _)) as [pm|e] eqn:Epm; cbn [bind];
    [|discriminate].
  destruct (mapM _ injection_dates) as [ips|e] eqn:Eips; cbn [bind];
    [|discriminate].
  destruct (mapM _ withdrawal_dates) as [wps|e] eqn:Ewps; cbn [bind];
    [|discriminate].
  apply price_map_resolved in Epm.
  pose proof (lookups_resolved _ _ _ _ _ Epm Eips) as Hips.
  pose proof (lookups_resolved _ _ _ _ _ Epm Ewps) as Hwps.
  destruct (Qltb 0 _).
  - destruct (interpolate_price self contract_end); cbn [bind];
      [|discriminate].
    intros [= <-]. now exists ips, wps.
  - cbn [bind]. intros [= <-]. now exists ips, wps.
Qed.

(** C4: every sample of the inventory schedule of a valuation lies between
    0 and the capacity, for a capacity that is not negative; the execution
    loop adds a volume only when the sum stays within the capacity and
    removes one only when the inventory covers it. *)
Theorem inventory_within_capacity :
  (forall (self : GasStoragePricer)
          (injection_dates withdrawal_dates : list datetime)
          (rate max_volume : Q) (contract_start contract_end : datetime)
          (override : option Q) (res : ValuationResult),
     0 <= max_volume ->
     fst (price_contract self injection_dates withdrawal_dates rate max_volume
            contract_start contract_end override) = Ok res ->
     Forall (fun s : sample => 0 <= snd s <= max_volume)
            (inventory_schedule res)) /\
  (forall (max_volume : Q) (st : exec_state) (p : proposal),
     current_inventory (execute_step max_volume st p)
     = match p_operation p with
       | inject =>
           if Qle_bool (current_inventory st + p_volume p) max_volume
           then current_inventory st + p_volume p
           else current_inventory st
       | withdraw =>
           if Qle_bool (p_volume p) (current_inventory st)
           then current_inventory st - p_volume p
           else current_inventory st
       | liquidate => current_inventory st
       end).
Proof.
  split; [|exact execute_step_inventory].
  intros self injection_dates withdrawal_dates rate max_volume
         contract_start contract_end override res Hmax Hres.
  unfold price_contract in Hres. cbn [fst] in Hres.
  apply optimize_storage_strategy_inv in Hres as (ips & wps & _ & _ & ->).
  apply Forall_app. split.
  - apply execute_inv; [exact Hmax|apply propose_volumes].
  - constructor; [|constructor]. simpl. lra.
Qed.

Lemma inventory_within_capacity_witness :
  exists res,
    fst (price_contract_for (__init__ two_points (1#100)) example_contract None) = Ok res /\
    Forall (fun s : sample => 0 <= snd s <= 100) (inventory_schedule res).
Proof.
  eexists. split.
  - vm_compute. reflexivity.
  - apply (proj1 inventory_within_capacity (__init__ two_points (1#100))
             [jan 2; jan 3] [jan 10] 60 100 (jan 1) (jan 11) None).
    + lra.
    + vm_compute. reflexivity.
Defined.

(** ** The call returns on a series that is not empty *)

Lemma insert_unique_In (x d : datetime) (l : list datetime) :
  In x (insert_unique d l) <-> x = d \/ In x l.
Proof.
  induction l as [|y l IH]; simpl.
  - intuition.
  - destruct (d <? y)%Z; [simpl; intuition|].
    destruct (d =? y)%Z eqn:E.
    + apply Z.eqb_eq in E. subst y. simpl. intuition.
    + simpl. rewrite IH. intuition.
Qed.

Lemma sorted_set_In (x : datetime) (l : list datetime) :
  In x (sorted_set l) <-> In x l.
Proof.
  unfold sorted_set. induction l as [|y l IH]; simpl; [reflexivity|].
  rewrite insert_unique_In, IH. intuition.
Qed.

Lemma price_map_ok (self : GasStoragePricer) (dates : list datetime) :
  price_data self <> [] ->
  exists pm,
    mapM (fun date => p <- interpolate_price self date ;; Ok (date, p)) dates
    = Ok pm /\
    map fst pm = dates /\
    Forall (fun item => interpolate_price self (fst item) = Ok (snd item)) pm.
Proof.
  intros Hne. induction dates as [|d dates (pm & Epm & Hkeys & Hvals)].
  - exists []. repeat split. constructor.
  - destruct (interpolate_price_total self d Hne) as [p Hp].
    exists ((d, p) :: pm). simpl. rewrite Hp. simpl. rewrite Epm. simpl.
    repeat split; [now rewrite Hkeys|]. constructor; auto.
Qed.

Lemma getitem_ok (self : GasStoragePricer) (pm : list (datetime * Q))
    (d : datetime) :
  Forall (fun item => interpolate_price self (fst item) = Ok (snd item)) pm ->
  In d (map fst pm) ->
  exists p, getitem pm d = Ok p /\ interpolate_price self d = Ok p.
Proof.
  intros Hvals. induction Hvals as [|[k v] pm Hkv _ IH]; simpl; [contradiction|].
  intros Hin. destruct (k =? d)%Z eqn:E.
  - apply Z.eqb_eq in E. subst k. exists v. now split.
  - apply Z.eqb_neq in E. destruct Hin as [Hin|Hin]; [contradiction|auto].
Qed.

Lemma resolved_prices_ok (self : GasStoragePricer) (pm : list (datetime * Q))
    (dates : list datetime) :
  Forall (fun item => interpolate_price self (fst item) = Ok (snd item)) pm ->
  incl dates (map fst pm) ->
  exists prices,
    mapM (fun date => p <- getitem pm date ;; Ok (date, p)) dates = Ok prices /\
    map fst prices = dates /\
    Forall (fun item => interpolate_price self (fst item) = Ok (snd item))
           prices.
Proof.
  intros Hvals. induction dates as [|d dates IH]; intros Hincl.
  - exists []. repeat split. constructor.
  - destruct IH as (prices & E & Hkeys & Hres).
    { intros x Hx. apply Hincl. now right. }
    destruct (getitem_ok self pm d Hvals (Hincl d (or_introl eq_refl)))
      as (p & Hp & Hip).
    exists ((d, p) :: prices). simpl. rewrite Hp. simpl. rewrite E. simpl.
    repeat split; [now rewrite Hkeys|]. constructor; auto.
Qed.

Lemma optimize_storage_strategy_returns (self : GasStoragePricer)
    (injection_dates withdrawal_dates : list datetime)
    (rate max_volume : Q) (contract_start contract_end : datetime) :
  price_data self <> [] ->
  exists res,
    optimize_storage_strategy self injection_dates withdrawal_dates
      rate max_volume contract_start contract_end = Ok res.
Proof.
  intros Hne. unfold optimize_storage_strategy.
  destruct (price_map_ok self
              (sorted_set (injection_dates ++ withdrawal_dates
                           ++ [contract_start; contract_end])) Hne)
    as (pm & -> & Hkeys & Hvals).
  cbn [bind].
  destruct (resolved_prices_ok self pm injection_dates Hvals)
    as (ips & -> & _ & _).
  { intros x Hx. rewrite Hkeys. apply sorted_set_In, in_or_app. now left. }
  cbn [bind].
  destruct (resolved_prices_ok self pm withdrawal_dates Hvals)
    as (wps & -> & _ & _).
  { intros x Hx. rewrite Hkeys. apply sorted_set_In, in_or_app. right.
    apply in_or_app. now left. }
  cbn [bind].
  destruct (Qltb 0 _).
  - destruct (interpolate_price_total self contract_end Hne) as [p ->].
    cbn [bind]. eauto.
  - cbn [bind]. eauto.
Qed.

Lemma optimize_storage_strategy_empty (self : GasStoragePricer)
    (injection_dates withdrawal_dates : list datetime)
    (rate max_volume : Q) (contract_start contract_end : datetime) :
  price_data self = [] ->
  optimize_storage_strategy self injection_dates withdrawal_dates
    rate max_volume contract_start contract_end = Raise IndexError.
Proof.
  intros Hnil. unfold optimize_storage_strategy.
  assert (Hne : sorted_set (injection_dates ++ withdrawal_dates
                            ++ [contract_start; contract_end]) <> []).
  { intros E.
    assert (H : In contract_end
                  (sorted_set (injection_dates ++ withdrawal_dates
                               ++ [contract_start; contract_end]))).
    { apply sorted_set_In, in_or_app. right. apply in_or_app. right.
      right. now left. }
    rewrite E in H. exact H. }
  destruct (sorted_set _) as [|d ds]; [congruence|].
  cbn [mapM]. rewrite (interpolate_price_empty self d Hnil). reflexivity.
Qed.

Lemma optimize_storage_strategy_idle (self : GasStoragePricer)
    (injection_dates withdrawal_dates : list datetime)
    (rate max_volume : Q) (contract_start contract_end : datetime)
    (res : ValuationResult) :
  rate <= 0 \/ max_volume <= 0 ->
  optimize_storage_strategy self injection_dates withdrawal_dates
    rate max_volume contract_start contract_end = Ok res ->
  strategy res = [] /\
  inventory_schedule res = [(contract_start, 0); (contract_end, 0)] /\
  contract_value res == 0.
Proof.
  intros Hbad. unfold optimize_storage_strategy.
  destruct (mapM _ (sorted_set _)) as [pm|e]; cbn [bind]; [|discriminate].
  destruct (mapM _ injection_dates) as [ips|e]; cbn [bind]; [|discriminate].
  destruct (mapM _ withdrawal_dates) as [wps|e]; cbn [bind]; [|discriminate].
  rewrite (propose_nothing rate max_volume ips wps Hbad).
  cbn. intros [= <-]. cbn. split; [reflexivity|]. split; reflexivity.
Qed.

(** ** Inputs outside the contract's ranges *)

(** C3 as the code has it: there is no validation step.  On an empty series
    every call raises the IndexError of the first price lookup; on a series
    that is not empty every call returns a result, whatever the rate, the
    capacity and the order of the contract dates, and that result has no
    operation and value 0 when the rate or the capacity is not positive. *)
Theorem invalid_input_handling (self : GasStoragePricer)
    (injection_dates withdrawal_dates : list datetime)
    (rate max_volume : Q) (contract_start contract_end : datetime)
    (override : option Q) :
  (price_data self = [] ->
   fst (price_contract self injection_dates withdrawal_dates rate max_volume
          contract_start contract_end override) = Raise IndexError) /\
  (price_data self <> [] ->
   exists res,
     fst (price_contract self injection_dates withdrawal_dates rate max_volume
            contract_start contract_end override) = Ok res /\
     (rate <= 0 \/ max_volume <= 0 ->
      strategy res = [] /\ contract_value res == 0)).
Proof.
  unfold price_contract. cbn [fst]. split.
  - intros Hnil. apply optimize_storage_strategy_empty.
    now destruct override.
  - intros Hne.
    destruct (optimize_storage_strategy_returns
                (match override with
                 | Some c => {| price_data := price_data self;
                                storage_cost_per_unit_per_day := c |}
                 | None => self
                 end)
                injection_dates withdrawal_dates rate max_volume
                contract_start contract_end) as [res Hres].
    { now destruct override. }
    exists res. split; [exact Hres|].
    intros Hbad.
    destruct (optimize_storage_strategy_idle _ _ _ _ _ _ _ _ Hbad Hres)
      as (Hs & _ & Hv).
    now split.
Qed.

Lemma invalid_input_handling_witness :
  fst (price_contract (__init__ [] (1#100)) [jan 2] [jan 10] 60 100
         (jan 1) (jan 11) None) = Raise IndexError /\
  exists res,
    fst (price_contract (__init__ two_points (1#100)) [jan 2] [jan 10] 0 100
           (jan 11) (jan 1) None) = Ok res /\
    strategy res = [] /\ contract_value res == 0.
Proof.
  split.
  - apply (proj1 (invalid_input_handling (__init__ [] (1#100)) [jan 2] [jan 10]
                    60 100 (jan 1) (jan 11) None)).
    reflexivity.
  - destruct (proj2 (invalid_input_handling (__init__ two_points (1#100))
                       [jan 2] [jan 10] 0 100 (jan 11) (jan 1) None))
      as (res & Hres & Hidle).
    + discriminate.
    + exists res. split; [exact Hres|]. apply Hidle. left. lra.
Defined.

(** C3 fails as stated: a rate of 0, a capacity of -1 and a contract that
    ends before it starts are each accepted, and the call returns. *)
Lemma invalid_inputs_not_rejected :
  ~ rejected (fst (price_contract (__init__ two_points (1#100))
                     [jan 2; jan 3] [jan 10] 0 100 (jan 1) (jan 11) None)) /\
  ~ rejected (fst (price_contract (__init__ two_points (1#100))
                     [jan 2; jan 3] [jan 10] 60 (-1) (jan 1) (jan 11) None)) /\
  ~ rejected (fst (price_contract (__init__ two_points (1#100))
                     [jan 2; jan 3] [jan 10] 60 100 (jan 11) (jan 1) None)).
Proof.
  repeat split; intros [e H]; vm_compute in H; discriminate.
Qed.

(** ** The cost override *)

Lemma price_contract_for_no_override (self : GasStoragePricer) (c : contract) :
  price_contract_for self c None = (optimize_for self c, self).
Proof. reflexivity. Qed.

Lemma price_contract_for_override (self : GasStoragePricer) (c : contract)
    (cost : Q) :
  price_contract_for self c (Some cost)
  = (optimize_for (with_cost self cost) c, with_cost self cost).
Proof. reflexivity. Qed.

Lemma heap_set_same (h : heap) (r : ref) (obj : GasStoragePricer) :
  heap_set h r obj r = obj.
Proof. unfold heap_set. now rewrite Nat.eqb_refl. Qed.

Lemma heap_set_other (h : heap) (r r' : ref) (obj : GasStoragePricer) :
  r' <> r -> heap_set h r obj r' = h r'.
Proof.
  intros Hne. unfold heap_set.
  now destruct (Nat.eqb_spec r' r); [contradiction|].
Qed.

Lemma call_price_contract_heap (h : heap) (self : ref) (c : contract)
    (override : option Q) :
  snd (call_price_contract h self c override)
  = heap_set h self (match override with
                     | Some cost => with_cost (h self) cost
                     | None => h self
                     end).
Proof. unfold call_price_contract. now destruct override. Qed.

Lemma call_price_contract_result (h : heap) (self : ref) (c : contract)
    (override : option Q) :
  fst (call_price_contract h self c override)
  = optimize_for (match override with
                  | Some cost => with_cost (h self) cost
                  | None => h self
                  end) c.
Proof. unfold call_price_contract. now destruct override. Qed.

(** As long as no call on [self] carries an override, the object keeps its
    cost and each call on it is priced at that cost. *)
Lemma run_calls_no_override (self : ref) (obj : GasStoragePricer)
    (calls : list call) (h : heap) :
  h self = obj ->
  (forall k, In k calls -> call_self k = self -> call_override k = None) ->
  Forall2 (fun k r => call_self k = self -> r = optimize_for obj (call_contract k))
          calls (fst (run_calls h calls)) /\
  snd (run_calls h calls) self = obj.
Proof.
  revert h. induction calls as [|k calls IH]; intros h Hobj Hnone.
  - split; [constructor|exact Hobj].
  - cbn [run_calls].
    pose proof (call_price_contract_heap h (call_self k) (call_contract k)
                  (call_override k)) as Hh.
    pose proof (call_price_contract_result h (call_self k) (call_contract k)
                  (call_override k)) as Hr.
    destruct (call_price_contract h (call_self k) (call_contract k)
                (call_override k)) as [r h'].
    cbn [fst snd] in Hh, Hr.
    assert (Hobj' : h' self = obj).
    { rewrite Hh. destruct (Nat.eq_dec self (call_self k)) as [E|N].
      - rewrite <- E, heap_set_same.
        rewrite (Hnone k (or_introl eq_refl) (eq_sym E)). exact Hobj.
      - now rewrite heap_set_other. }
    destruct (IH h' Hobj') as [Hres Hfinal].
    { intros k' Hk'. apply Hnone. now right. }
    destruct (run_calls h' calls) as [rs h''].
    cbn [fst snd] in *. split; [|exact Hfinal].
    constructor; [|exact Hres].
    intros E. rewrite Hr, E, (Hnone k (or_introl eq_refl) E), Hobj.
    reflexivity.
Qed.

(** C9: a call with a cost override assigns the cost field of the pricer
    object in place: the object then holds that cost and the same series,
    every other object is untouched, and every later call on the object
    that omits the override is priced at that cost, not at the
    constructor's.  On [example_heap] the calls of [example_calls] report
    the storage costs 4.8, 240, 240 (object 0, after the override of 0.5)
    and 4.8 (object 1). *)
Theorem override_persists :
  (forall (h : heap) (self : ref) (c : contract) (cost : Q)
          (calls : list call),
     (forall k, In k calls -> call_self k = self -> call_override k = None) ->
     let h1 := snd (call_price_contract h self c (Some cost)) in
     storage_cost_per_unit_per_day (h1 self) = cost /\
     price_data (h1 self) = price_data (h self) /\
     (forall r, r <> self -> h1 r = h r) /\
     Forall2 (fun k r =>
                call_self k = self ->
                r = optimize_for (with_cost (h self) cost) (call_contract k))
             calls (fst (run_calls h1 calls)) /\
     snd (run_calls h1 calls) self = with_cost (h self) cost) /\
  map reported_storage_costs (fst (run_calls example_heap example_calls))
  = [Some (24 # 5); Some 240; Some 240; Some (24 # 5)].
Proof.
  split.
  - intros h self c cost calls Hnone h1.
    assert (Hh1 : h1 self = with_cost (h self) cost).
    { unfold h1. rewrite call_price_contract_heap. apply heap_set_same. }
    split; [now rewrite Hh1|]. split; [now rewrite Hh1|]. split.
    + intros r Hr. unfold h1. rewrite call_price_contract_heap.
      now apply heap_set_other.
    + now apply run_calls_no_override.
  - vm_compute. reflexivity.
Qed.

Lemma override_persists_witness :
  Forall2 (fun k r =>
             call_self k = 0%nat ->
             r = optimize_for (with_cost (example_heap 0%nat) (1#2))
                   (call_contract k))
          [ {| call_self := 0%nat; call_contract := example_contract;
               call_override := None |};
            {| call_self := 1%nat; call_contract := late_contract;
               call_override := Some 3 |} ]
          (fst (run_calls
                  (snd (call_price_contract example_heap 0%nat late_contract
                          (Some (1#2))))
                  [ {| call_self := 0%nat; call_contract := example_contract;
                       call_override := None |};
                    {| call_self := 1%nat; call_contract := late_contract;
                       call_override := Some 3 |} ])).
Proof.
  apply (proj1 override_persists example_heap 0%nat late_contract (1#2)).
  intros k [<-|[<-|[]]]; simpl; [reflexivity|discriminate].
Defined.

(** * Further properties of the code *)

(** ** Interpolated prices stay within the observed prices *)







(** ** The shape of a returned valuation *)

Lemma execute_step_cases (max_volume : Q) (st : exec_state) (p : proposal) :
  let skipped :=
    {| current_inventory := current_inventory st; cash := cash st;
       ops := ops st;
       schedule := schedule st ++ [(p_date p, current_inventory st)] |} in
  execute_step max_volume st p = skipped \/
  (p_operation p = inject /\
   current_inventory st + p_volume p <= max_volume /\
   execute_step max_volume st p =
     {| current_inventory := current_inventory st + p_volume p;
        cash := cash st - p_volume p * p_price p;
        ops := ops st ++ [executed_op p (current_inventory st + p_volume p)];
        schedule := schedule st
                    ++ [(p_date p, current_inventory st + p_volume p)] |}) \/
  (p_operation p = withdraw /\
   p_volume p <= current_inventory st /\
   execute_step max_volume st p =
     {| current_inventory := current_inventory st - p_volume p;
        cash := cash st + p_volume p * p_price p;
        ops := ops st ++ [executed_op p (current_inventory st - p_volume p)];
        schedule := schedule st
                    ++ [(p_date p, current_inventory st - p_volume p)] |}).
Proof.
  intros skipped. unfold execute_step, executed_op.
  destruct (p_operation p) eqn:Ek.
  - destruct (Qle_bool _ _) eqn:E; [|now left].
    right; left. apply Qle_bool_iff in E. now repeat split.
  - destruct (Qle_bool _ _) eqn:E; [|now left].
    right; right. apply Qle_bool_iff in E. now repeat split.
  - now left.
Qed.

(** A property of the loop's state that every iteration keeps holds when
    the loop ends. *)
Lemma execute_loop_keeps (P : exec_state -> Prop) (max_volume : Q)
    (all : list proposal) (st : exec_state) :
  (forall st p, In p all -> P st -> P (execute_step max_volume st p)) ->
  P st -> P (fold_left (execute_step max_volume) all st).
Proof.
  revert st. induction all as [|p all IH]; intros st Hstep Hst;
    cbn [fold_left]; [exact Hst|].
  apply IH.
  - intros st' p' Hp'. apply Hstep. now right.
  - apply Hstep; [now left|exact Hst].
Qed.

Lemma in_resolved (self : GasStoragePricer) (dates : list datetime)
    (prices : list row) (item : row) :
  Forall2 (resolved self) dates prices -> In item prices ->
  In (fst item) dates /\ interpolate_price self (fst item) = Ok (snd item).
Proof.
  induction 1 as [|d it dates prices [Hk Hv] _ IH]; [contradiction|].
  intros [<-|Hin].
  - rewrite Hk. split; [now left|exact Hv].
  - destruct (IH Hin). split; [now right|assumption].
Qed.

Lemma optimize_storage_strategy_shape (self : GasStoragePricer)
    (injection_dates withdrawal_dates : list datetime)
    (rate max_volume : Q) (contract_start contract_end : datetime)
    (res : ValuationResult) :
  optimize_storage_strategy self injection_dates withdrawal_dates
    rate max_volume contract_start contract_end = Ok res ->
  exists ips wps end_price,
    Forall2 (resolved self) injection_dates ips /\
    Forall2 (resolved self) withdrawal_dates wps /\
    Forall2 (resolved self)
      (sorted_set (injection_dates ++ withdrawal_dates
                   ++ [contract_start; contract_end]))
      (price_map res) /\
    interpolate_price self contract_end = Ok end_price /\
    let st := execute max_volume contract_start
                (propose rate max_volume ips wps) in
    strategy res
    = ops st ++ (if Qltb 0 (current_inventory st)
                 then [liquidation_op contract_end end_price
                         (current_inventory st)]
                 else []) /\
    total_cash_flow res
    = (if Qltb 0 (current_inventory st)
       then cash st + current_inventory st * end_price
       else cash st) /\
    inventory_schedule res = schedule st ++ [(contract_end, 0)] /\
    storage_costs res = calculate_storage_costs self (inventory_schedule res) /\
    contract_value res = total_cash_flow res - storage_costs res.
Proof.
  unfold optimize_storage_strategy.
  destruct (mapM _ (sorted_set _)) as [pm|e] eqn:Epm; cbn [bind];
    [|discriminate].
  destruct (mapM _ injection_dates) as [ips|e] eqn:Eips; cbn [bind];
    [|discriminate].
  destruct (mapM _ withdrawal_dates) as [wps|e] eqn:Ewps; cbn [bind];
    [|discriminate].
  apply price_map_resolved in Epm.
  pose proof (lookups_resolved _ _ _ _ _ Epm Eips) as Hips.
  pose proof (lookups_resolved _ _ _ _ _ Epm Ewps) as Hwps.
  assert (Hend : exists end_price,
             interpolate_price self contract_end = Ok end_price).
  { assert (Hin : In contract_end
                    (sorted_set (injection_dates ++ withdrawal_dates
                                 ++ [contract_start; contract_end]))).
    { apply sorted_set_In, in_or_app. right. apply in_or_app. right.
      right. now left. }
    clear - Epm Hin.
    induction Epm as [|d it l l' [Hk Hv] _ IH]; [contradiction|].
    destruct Hin as [->|Hin]; [eauto|auto]. }
  destruct Hend as [end_price Hend]. rewrite Hend.
  destruct (Qltb 0 _) eqn:E; cbn [bind]; intros [= <-];
    exists ips, wps, end_price; cbn; rewrite E; repeat split; auto.
  now rewrite app_nil_r.
Qed.

(** ** What reaches the execution loop, and what the loop records *)

Lemma withdrawal_of_sound (rate max_volume : Q) (ips wps : list row)
    (all : list proposal) (wp : row) :
  In wp wps ->
  Forall (injection_proposal rate max_volume ips wps) all ->
  Forall (fun p => 0 < p_volume p <= rate /\ p_operation p = withdraw /\
                   In (p_date p, p_price p) wps)
         (withdrawal_of rate all wp).
Proof.
  intros Hwp Hall.
  pose proof (withdrawal_of_volume rate max_volume ips wps all wp Hall) as Hv.
  unfold withdrawal_of in *.
  destruct (negb _ && _); [|constructor].
  inversion Hv as [|? ? Hpos _]; subst. simpl in Hpos.
  constructor; [|constructor]. simpl. repeat split; auto.
  - apply min_le_l.
  - now destruct wp.
Qed.

Lemma propose_sound (rate max_volume : Q) (ips wps : list row) :
  Forall (sound_proposal rate ips wps) (propose rate max_volume ips wps).
Proof.
  rewrite propose_unfold. apply stable_sort_Forall, Forall_app.
  pose proof (injection_pass_proposals rate max_volume
                (stable_sort price_le ips) (stable_sort price_ge wps)) as Hinj.
  split.
  - eapply Forall_impl; [|exact Hinj].
    intros p (Hk & Hin & Hv & Hpos & _ & w & Hw & Hpw & Hdw).
    split; [split; [exact Hpos|rewrite Hv; apply min_le_l]|].
    left. split; [exact Hk|]. split; [now apply stable_sort_In in Hin|].
    exists w. split; [now apply stable_sort_In in Hw|now split].
  - apply Forall_flat_map, Forall_forall. intros w Hw.
    eapply Forall_impl;
      [|eapply withdrawal_of_sound; [exact Hw|exact Hinj]].
    intros p (Hv & Hk & Hin). split; [exact Hv|right].
    split; [exact Hk|now apply stable_sort_In in Hin].
Qed.

Lemma withdrawals_length (rate : Q) (all : list proposal) (wps : list row) :
  (length (flat_map (withdrawal_of rate all) wps) <= length wps)%nat.
Proof.
  induction wps as [|w wps IH]; [simpl; lia|].
  cbn [flat_map]. rewrite length_app. simpl length.
  assert (Hw : (length (withdrawal_of rate all w) <= 1)%nat).
  { unfold withdrawal_of. destruct (negb _ && _); simpl; lia. }
  lia.
Qed.

Lemma propose_length (rate max_volume : Q) (ips wps : list row) :
  (length (propose rate max_volume ips wps) <= length ips + length wps)%nat.
Proof.
  rewrite propose_unfold. unfold sort_by_date.
  rewrite <- (Permutation_length (stable_sort_perm _ _)), length_app.
  apply Nat.add_le_mono.
  - rewrite (Permutation_length (stable_sort_perm price_le ips)).
    unfold injection_pass.
    generalize (stable_sort price_ge wps) as wps'.
    generalize (stable_sort price_le ips) as ips'. intros ips' wps'.
    assert (H : forall st,
               (length (snd (fold_left (injection_step rate max_volume wps')
                                       ips' st))
                <= length (snd st) + length ips')%nat).
    { induction ips' as [|ip ips' IH]; intros st; cbn [fold_left].
      - simpl. lia.
      - specialize (IH (injection_step rate max_volume wps' st ip)).
        assert (Hs : (length (snd (injection_step rate max_volume wps' st ip))
                      <= S (length (snd st)))%nat).
        { unfold injection_step. destruct st as [cur all], ip as [d p].
          destruct (negb _ && _); [|simpl; lia].
          destruct (Qltb 0 (min_ _ _)); simpl; [|lia].
          rewrite length_app. simpl. lia. }
        simpl length. lia. }
    apply (H (0, [])).
  - rewrite (Permutation_length (stable_sort_perm price_ge wps)).
    apply withdrawals_length.
Qed.

Lemma sum_snoc (l : list Q) (x : Q) :
  fold_right Qplus 0 (l ++ [x]) == fold_right Qplus 0 l + x.
Proof.
  induction l as [|y l IH]; simpl; [ring|]. rewrite IH. ring.
Qed.

Lemma cash_flows_snoc (l : list Operation) (o : Operation) :
  cash_flows (l ++ [o]) == cash_flows l + op_cash_flow o.
Proof. unfold cash_flows. rewrite map_app. apply sum_snoc. Qed.

Lemma volume_of_snoc (k : operation_kind) (l : list Operation) (o : Operation) :
  volume_of k (l ++ [o])
  == volume_of k l + (if kind_eqb (op_operation o) k then op_volume o else 0).
Proof.
  unfold volume_of. rewrite filter_app. simpl.
  destruct (kind_eqb (op_operation o) k).
  - rewrite map_app. apply sum_snoc.
  - rewrite app_nil_r. ring.
Qed.

(** The books of the execution loop: the cash is what the recorded
    operations bring in, the inventory is what they inject less what they
    withdraw, none of them is a liquidation and the inventory is never
    negative. *)
Lemma execute_books (max_volume : Q) (contract_start : datetime)
    (all : list proposal) :
  Forall (fun p => 0 < p_volume p) all ->
  let st := execute max_volume contract_start all in
  cash st == cash_flows (ops st) /\
  current_inventory st
  == volume_of inject (ops st) - volume_of withdraw (ops st) /\
  volume_of liquidate (ops st) == 0 /\
  0 <= current_inventory st.
Proof.
  intros Hall. unfold execute.
  apply (execute_loop_keeps
           (fun st => cash st == cash_flows (ops st) /\
                      current_inventory st
                      == volume_of inject (ops st) - volume_of withdraw (ops st) /\
                      volume_of liquidate (ops st) == 0 /\
                      0 <= current_inventory st)).
  - intros st p Hp (Hc & Hi & Hl & H0).
    rewrite Forall_forall in Hall. specialize (Hall p Hp).
    destruct (execute_step_cases max_volume st p)
      as [->|[(Hk & Hg & ->)|(Hk & Hg & ->)]]; cbn [cash ops current_inventory].
    + now repeat split.
    + rewrite cash_flows_snoc, !volume_of_snoc. unfold executed_op.
      cbn [op_cash_flow op_operation op_volume]. rewrite Hk.
      cbn [kind_eqb]. rewrite Hc, Hi, Hl. repeat split; try ring. lra.
    + rewrite cash_flows_snoc, !volume_of_snoc. unfold executed_op.
      cbn [op_cash_flow op_operation op_volume]. rewrite Hk.
      cbn [kind_eqb]. rewrite Hc, Hi, Hl. repeat split; try ring. lra.
  - cbn. repeat split; lra.
Qed.

Lemma execute_records (rate max_volume : Q) (contract_start : datetime)
    (all : list proposal) :
  0 <= max_volume ->
  Forall (fun p => 0 < p_volume p <= rate /\ p_operation p <> liquidate) all ->
  let st := execute max_volume contract_start all in
  0 <= current_inventory st <= max_volume /\
  Forall (fun o => well_formed_op rate max_volume o /\
                   exists p, In p all /\
                             o = executed_op p (op_inventory_after o))
         (ops st).
Proof.
  intros Hmax Hall. unfold execute. rewrite Forall_forall in Hall.
  apply (execute_loop_keeps
           (fun st => 0 <= current_inventory st <= max_volume /\
                      Forall (fun o => well_formed_op rate max_volume o /\
                                exists p, In p all /\
                                  o = executed_op p (op_inventory_after o))
                             (ops st))).
  - intros st p Hp (Hcur & Hops). destruct (Hall p Hp) as [[Hv Hr] Hk].
    destruct (execute_step_cases max_volume st p)
      as [->|[(Hk' & Hg & ->)|(Hk' & Hg & ->)]]; cbn [ops current_inventory].
    + now split.
    + split; [lra|]. apply Forall_app. split; [exact Hops|].
      constructor; [|constructor]. split.
      * unfold well_formed_op, executed_op. cbn. rewrite Hk'.
        repeat split; auto; lra.
      * exists p. now split.
    + split; [lra|]. apply Forall_app. split; [exact Hops|].
      constructor; [|constructor]. split.
      * unfold well_formed_op, executed_op. cbn. rewrite Hk'.
        repeat split; auto; lra.
      * exists p. now split.
  - cbn. split; [lra|constructor].
Qed.

Lemma sound_proposal_bounds (rate : Q) (ips wps : list row) (p : proposal) :
  sound_proposal rate ips wps p ->
  0 < p_volume p <= rate /\ p_operation p <> liquidate.
Proof.
  intros [Hv [[Hk _]|[Hk _]]]; (split; [exact Hv|rewrite Hk; discriminate]).
Qed.

Lemma propose_positive (rate max_volume : Q) (ips wps : list row) :
  Forall (fun p => 0 < p_volume p) (propose rate max_volume ips wps).
Proof.
  eapply Forall_impl; [|apply propose_sound].
  intros p Hp. apply Hp.
Qed.

(** X2: the total cash flow of a returned valuation is the sum of the cash
    flows of the operations it lists, and the contract value is that sum
    less the storage costs. *)
Theorem cash_flow_is_sum_of_operations (self : GasStoragePricer)
    (injection_dates withdrawal_dates : list datetime)
    (rate max_volume : Q) (contract_start contract_end : datetime)
    (res : ValuationResult) :
  optimize_storage_strategy self injection_dates withdrawal_dates
    rate max_volume contract_start contract_end = Ok res ->
  total_cash_flow res == cash_flows (strategy res) /\
  contract_value res == cash_flows (strategy res) - storage_costs res.
Proof.
  intros Hres.
  apply optimize_storage_strategy_shape in Hres
    as (ips & wps & end_price & _ & _ & _ & _ & Hs & Hc & _ & _ & Hv).
  destruct (execute_books max_volume contract_start
              (propose rate max_volume ips wps) (propose_positive _ _ _ _))
    as (Hcash & _).
  assert (Ht : total_cash_flow res == cash_flows (strategy res)).
  { rewrite Hs, Hc. destruct (Qltb 0 _).
    - rewrite cash_flows_snoc, Hcash. cbn. ring.
    - now rewrite app_nil_r. }
  split; [exact Ht|]. rewrite Hv, Ht. ring.
Qed.

Lemma cash_flow_is_sum_of_operations_witness :
  exists res,
    optimize_for example_pricer example_contract = Ok res /\
    total_cash_flow res == cash_flows (strategy res).
Proof.
  eexists. split.
  - vm_compute. reflexivity.
  - apply (cash_flow_is_sum_of_operations example_pricer
             [jan 2; jan 3] [jan 10] 60 100 (jan 1) (jan 11)).
    vm_compute. reflexivity.
Defined.



Lemma execute_ops_from (max_volume : Q) (contract_start : datetime)
    (all : list proposal) :
  Forall (fun o => op_operation o <> liquidate /\
                   exists p, In p all /\
                             o = executed_op p (op_inventory_after o))
         (ops (execute max_volume contract_start all)).
Proof.
  unfold execute.
  apply (execute_loop_keeps
           (fun st => Forall (fun o => op_operation o <> liquidate /\
                                exists p, In p all /\
                                  o = executed_op p (op_inventory_after o))
                             (ops st))).
  - intros st p Hp Hops.
    destruct (execute_step_cases max_volume st p)
      as [->|[(Hk & _ & ->)|(Hk & _ & ->)]]; cbn [ops]; [exact Hops| |];
      (apply Forall_app; split; [exact Hops|]; constructor; [|constructor];
       split; [cbn; rewrite Hk; discriminate|exists p; now split]).
  - constructor.
Qed.

(** X4: every operation of a returned valuation moves a positive volume and
    leaves an inventory between 0 and the capacity; an injection or a
    withdrawal moves at most the rate (the forced sale is not held to the
    rate); the cash flow is minus volume times price for an injection and
    volume times price otherwise. *)
Theorem operations_well_formed (self : GasStoragePricer)
    (injection_dates withdrawal_dates : list datetime)
    (rate max_volume : Q) (contract_start contract_end : datetime)
    (res : ValuationResult) :
  optimize_storage_strategy self injection_dates withdrawal_dates
    rate max_volume contract_start contract_end = Ok res ->
  Forall (well_formed_op rate max_volume) (strategy res).
Proof.
  intros Hres.
  apply optimize_storage_strategy_shape in Hres
    as (ips & wps & end_price & _ & _ & _ & _ & Hs & _).
  rewrite Hs. clear Hs.
  destruct (Qlt_le_dec 0 max_volume) as [Hmax|Hmax].
  - destruct (execute_records rate max_volume contract_start
                (propose rate max_volume ips wps)) as [Hcur Hops].
    + now apply Qlt_le_weak.
    + eapply Forall_impl; [|apply propose_sound].
      intros p Hp. eapply sound_proposal_bounds, Hp.
    + apply Forall_app. split.
      * eapply Forall_impl; [|exact Hops]. intros o Ho. apply Ho.
      * destruct (Qltb 0 _) eqn:E; constructor; [|constructor].
        apply Qltb_lt in E. unfold well_formed_op. cbn.
        repeat split; auto; try lra. intros H. now contradiction H.
  - rewrite (propose_nothing rate max_volume ips wps (or_intror Hmax)).
    cbn. constructor.
Qed.

Lemma operations_well_formed_witness :
  exists res,
    optimize_for example_pricer late_contract = Ok res /\
    Forall (well_formed_op 50 100) (strategy res).
Proof.
  eexists. split.
  - vm_compute. reflexivity.
  - apply (operations_well_formed example_pricer
             [jan 8; jan 9] [jan 10] 50 100 (jan 1) (jan 2)).
    vm_compute. reflexivity.
Defined.




(** X6: every operation of a returned valuation is dated on a candidate
    date of its kind (the forced sale on the contract end) and priced at
    the interpolated price of its date, and every injection has a
    withdrawal candidate later in time whose interpolated price is
    strictly higher. *)
Theorem operations_justified (self : GasStoragePricer)
    (injection_dates withdrawal_dates : list datetime)
    (rate max_volume : Q) (contract_start contract_end : datetime)
    (res : ValuationResult) :
  optimize_storage_strategy self injection_dates withdrawal_dates
    rate max_volume contract_start contract_end = Ok res ->
  Forall (justified_op self injection_dates withdrawal_dates contract_end)
         (strategy res).
Proof.
  intros Hres.
  apply optimize_storage_strategy_shape in Hres
    as (ips & wps & end_price & Hips & Hwps & _ & Hend & Hs & _).
  rewrite Hs. clear Hs. apply Forall_app. split.
  - pose proof (propose_sound rate max_volume ips wps) as Hsound.
    rewrite Forall_forall in Hsound.
    eapply Forall_impl; [|apply execute_ops_from].
    intros o (_ & p & Hp & Ho).
    destruct (Hsound p Hp) as [_ [(Hk & Hin & w & Hw & Hpw & Hdw)|(Hk & Hin)]].
    + destruct (in_resolved self _ _ _ Hips Hin) as [Hd Hpr].
      destruct (in_resolved self _ _ _ Hwps Hw) as [Hwd Hwpr].
      simpl in Hd, Hpr.
      rewrite Ho. unfold justified_op, executed_op. cbn. rewrite Hk.
      split; [exact Hpr|]. split; [exact Hd|].
      exists (fst w), (snd w). now repeat split.
    + destruct (in_resolved self _ _ _ Hwps Hin) as [Hd Hpr].
      simpl in Hd, Hpr.
      rewrite Ho. unfold justified_op, executed_op. cbn. rewrite Hk.
      now split.
  - destruct (Qltb 0 _); constructor; [|constructor].
    unfold justified_op. cbn. now split.
Qed.

Lemma operations_justified_witness :
  exists res,
    optimize_for example_pricer example_contract = Ok res /\
    Forall (justified_op example_pricer [jan 2; jan 3] [jan 10] (jan 11))
           (strategy res).
Proof.
  eexists. split.
  - vm_compute. reflexivity.
  - apply (operations_justified example_pricer
             [jan 2; jan 3] [jan 10] 60 100 (jan 1) (jan 11)).
    vm_compute. reflexivity.
Defined.

(** ** Order and size of the schedule and of the operations *)

Lemma sort_by_date_sorted (all : list proposal) :
  StronglySorted (fun a b => (p_date a <= p_date b)%Z) (sort_by_date all).
Proof.
  pose proof (stable_sort_sorted proposal_date_le) as H.
  unfold sort_by_date. fold proposal_date_le.
  assert (Hs : StronglySorted (rel_of proposal_date_le)
                 (stable_sort proposal_date_le all)).
  { apply H.
    - intros x y. unfold proposal_date_le. rewrite !Z.leb_le. lia.
    - intros x y z. unfold proposal_date_le. rewrite !Z.leb_le. lia. }
  induction Hs as [|a l Hs IH Ha]; constructor; auto.
  eapply Forall_impl; [|exact Ha].
  intros b Hb. now apply Z.leb_le in Hb.
Qed.

Lemma propose_sorted (rate max_volume : Q) (ips wps : list row) :
  StronglySorted (fun a b => (p_date a <= p_date b)%Z)
                 (propose rate max_volume ips wps).
Proof. unfold propose. apply sort_by_date_sorted. Qed.

Lemma sorted_proposal_dates (all : list proposal) :
  StronglySorted (fun a b => (p_date a <= p_date b)%Z) all ->
  StronglySorted Z.le (map p_date all).
Proof.
  induction 1 as [|p l Hl IH Hp]; simpl; constructor; auto.
  apply Forall_map. exact Hp.
Qed.

Lemma execute_loop_schedule (max_volume : Q) (all : list proposal)
    (st : exec_state) :
  exists samples,
    schedule (fold_left (execute_step max_volume) all st)
    = schedule st ++ samples /\
    map fst samples = map p_date all.
Proof.
  revert st. induction all as [|p all IH]; intros st; cbn [fold_left].
  - exists []. now rewrite app_nil_r.
  - destruct (IH (execute_step max_volume st p)) as (samples & Hs & Hd).
    rewrite execute_step_schedule in Hs.
    eexists (_ :: samples). rewrite Hs, <- app_assoc. split; [reflexivity|].
    simpl. now rewrite Hd.
Qed.

Lemma sorted_snoc (l : list Z) (x : Z) :
  StronglySorted Z.le l -> Forall (fun y => (y <= x)%Z) l ->
  StronglySorted Z.le (l ++ [x]).
Proof.
  induction 1 as [|a l Hs IH Ha]; intros Hx; simpl.
  - repeat constructor.
  - inversion Hx; subst. constructor; [now apply IH|].
    apply Forall_app. split; [exact Ha|]. now repeat constructor.
Qed.

Lemma execute_loop_ops_sorted (max_volume : Q) (all : list proposal)
    (st : exec_state) :
  StronglySorted (fun a b => (p_date a <= p_date b)%Z) all ->
  StronglySorted Z.le (map op_date (ops st)) ->
  (forall d p, In d (map op_date (ops st)) -> In p all -> (d <= p_date p)%Z) ->
  StronglySorted Z.le
    (map op_date (ops (fold_left (execute_step max_volume) all st))).
Proof.
  intros Hall. revert st.
  induction Hall as [|p all Hs IH Hp]; intros st Hops Hb; cbn [fold_left];
    [exact Hops|].
  rewrite Forall_forall in Hp.
  assert (Hcase : ops (execute_step max_volume st p) = ops st \/
                  exists o, op_date o = p_date p /\
                            ops (execute_step max_volume st p) = ops st ++ [o]).
  { destruct (execute_step_cases max_volume st p)
      as [->|[(_ & _ & ->)|(_ & _ & ->)]]; cbn [ops]; [now left| |];
      right; eexists; (split; [|reflexivity]); reflexivity. }
  apply IH.
  - destruct Hcase as [->|(o & Ho & ->)]; [exact Hops|].
    rewrite map_app. simpl. rewrite Ho. apply sorted_snoc; [exact Hops|].
    apply Forall_forall. intros d Hd. apply Hb; [exact Hd|now left].
  - intros d q Hd Hq.
    destruct Hcase as [E|(o & Ho & E)]; rewrite E in Hd.
    + apply Hb; [exact Hd|now right].
    + rewrite map_app in Hd. apply in_app_or in Hd as [Hd|[<-|[]]].
      * apply Hb; [exact Hd|now right].
      * rewrite Ho. now apply Hp.
Qed.

Lemma execute_loop_ops_length (max_volume : Q) (all : list proposal)
    (st : exec_state) :
  (length (ops (fold_left (execute_step max_volume) all st))
   <= length (ops st) + length all)%nat.
Proof.
  revert st. induction all as [|p all IH]; intros st; cbn [fold_left].
  - simpl. lia.
  - specialize (IH (execute_step max_volume st p)).
    assert (H : (length (ops (execute_step max_volume st p))
                 <= S (length (ops st)))%nat).
    { destruct (execute_step_cases max_volume st p)
        as [->|[(_ & _ & ->)|(_ & _ & ->)]]; cbn [ops];
        rewrite ?length_app; simpl; lia. }
    simpl length. lia.
Qed.

(** X7: the inventory schedule of a returned valuation starts with the
    sample (contract start, 0) and ends with the sample (contract end, 0);
    the samples in between are in ascending date order, are all dated on
    candidate dates, and there are at most as many of them as there are
    candidate dates. *)
Theorem schedule_shape (self : GasStoragePricer)
    (injection_dates withdrawal_dates : list datetime)
    (rate max_volume : Q) (contract_start contract_end : datetime)
    (res : ValuationResult) :
  optimize_storage_strategy self injection_dates withdrawal_dates
    rate max_volume contract_start contract_end = Ok res ->
  exists samples,
    inventory_schedule res
    = (contract_start, 0) :: samples ++ [(contract_end, 0)] /\
    StronglySorted Z.le (map fst samples) /\
    Forall (fun d => In d injection_dates \/ In d withdrawal_dates)
           (map fst samples) /\
    (length samples <= length injection_dates + length withdrawal_dates)%nat.
Proof.
  intros Hres.
  apply optimize_storage_strategy_shape in Hres
    as (ips & wps & end_price & Hips & Hwps & _ & _ & _ & _ & Hsch & _).
  unfold execute in Hsch.
  destruct (execute_loop_schedule max_volume (propose rate max_volume ips wps)
              {| current_inventory := 0; cash := 0; ops := [];
                 schedule := [(contract_start, 0)] |})
    as (samples & Hs & Hd).
  cbn [schedule] in Hs. rewrite Hs in Hsch.
  exists samples. split; [exact Hsch|]. rewrite Hd. split; [|split].
  - apply sorted_proposal_dates, propose_sorted.
  - apply Forall_map.
    eapply Forall_impl; [|apply propose_sound].
    intros p [_ [(_ & Hin & _)|(_ & Hin)]].
    + left. now destruct (in_resolved self _ _ _ Hips Hin).
    + right. now destruct (in_resolved self _ _ _ Hwps Hin).
  - rewrite <- (length_map fst), Hd, length_map.
    rewrite (Forall2_length Hips), (Forall2_length Hwps).
    apply propose_length.
Qed.

Lemma schedule_shape_witness :
  exists res,
    optimize_for example_pricer example_contract = Ok res /\
    exists samples,
      inventory_schedule res = (jan 1, 0) :: samples ++ [(jan 11, 0)] /\
      StronglySorted Z.le (map fst samples).
Proof.
  eexists. split.
  - vm_compute. reflexivity.
  - destruct (schedule_shape example_pricer
                [jan 2; jan 3] [jan 10] 60 100 (jan 1) (jan 11) _ eq_refl)
      as (samples & Hs & Hsorted & _).
    exists samples. now split.
Defined.

(** X8: the injections and withdrawals of a returned valuation are listed
    in ascending date order, and the valuation lists at most one
    operation per candidate date plus the forced sale. *)
Theorem operations_in_date_order (self : GasStoragePricer)
    (injection_dates withdrawal_dates : list datetime)
    (rate max_volume : Q) (contract_start contract_end : datetime)
    (res : ValuationResult) :
  optimize_storage_strategy self injection_dates withdrawal_dates
    rate max_volume contract_start contract_end = Ok res ->
  StronglySorted Z.le
    (map op_date (filter (fun o => negb (is_liquidation o)) (strategy res))) /\
  (length (strategy res)
   <= length injection_dates + length withdrawal_dates + 1)%nat.
Proof.
  intros Hres.
  apply optimize_storage_strategy_shape in Hres
    as (ips & wps & end_price & Hips & Hwps & _ & _ & Hs & _).
  rewrite Hs. clear Hs. split.
  - rewrite filter_app.
    assert (E1 : filter (fun o => negb (is_liquidation o))
                   (ops (execute max_volume contract_start
                           (propose rate max_volume ips wps)))
                 = ops (execute max_volume contract_start
                          (propose rate max_volume ips wps))).
    { pose proof (execute_ops_from max_volume contract_start
                    (propose rate max_volume ips wps)) as H.
      induction H as [|o l [Hk _] _ IH]; [reflexivity|].
      simpl. rewrite IH. unfold is_liquidation.
      destruct (op_operation o); [reflexivity|reflexivity|congruence]. }
    rewrite E1.
    assert (E2 : filter (fun o => negb (is_liquidation o))
                   (if Qltb 0 (current_inventory
                                 (execute max_volume contract_start
                                    (propose rate max_volume ips wps)))
                    then [liquidation_op contract_end end_price
                            (current_inventory
                               (execute max_volume contract_start
                                  (propose rate max_volume ips wps)))]
                    else []) = []).
    { now destruct (Qltb 0 _). }
    rewrite E2, app_nil_r. unfold execute.
    apply execute_loop_ops_sorted;
      [apply propose_sorted|constructor|intros d p []].
  - rewrite length_app.
    pose proof (execute_loop_ops_length max_volume
                  (propose rate max_volume ips wps)
                  {| current_inventory := 0; cash := 0; ops := [];
                     schedule := [(contract_start, 0)] |}) as Hl.
    cbn [ops length] in Hl. fold (execute max_volume contract_start
                                    (propose rate max_volume ips wps)) in Hl.
    pose proof (propose_length rate max_volume ips wps) as Hp.
    rewrite <- (Forall2_length Hips), <- (Forall2_length Hwps) in Hp.
    assert (Hsale : (length (if Qltb 0 (current_inventory
                                 (execute max_volume contract_start
                                    (propose rate max_volume ips wps)))
                    then [liquidation_op contract_end end_price
                            (current_inventory
                               (execute max_volume contract_start
                                  (propose rate max_volume ips wps)))]
                    else []) <= 1)%nat).
    { destruct (Qltb 0 _); simpl; lia. }
    lia.
Qed.

Lemma operations_in_date_order_witness :
  exists res,
    optimize_for example_pricer late_contract = Ok res /\
    (length (strategy res) <= 2 + 1 + 1)%nat.
Proof.
  eexists. split.
  - vm_compute. reflexivity.
  - apply (operations_in_date_order example_pricer
             [jan 8; jan 9] [jan 10] 50 100 (jan 1) (jan 2) _ eq_refl).
Defined.

(** ** Valuations without operations *)

Lemma propose_idle (rate max_volume : Q) (ips wps : list row) :
  (forall ip w, In ip ips -> In w wps ->
                ~ (snd ip < snd w /\ (fst ip < fst w)%Z)) ->
  propose rate max_volume ips wps = [].
Proof.
  intros Hnone. rewrite propose_unfold.
  pose proof (injection_pass_proposals rate max_volume
                (stable_sort price_le ips) (stable_sort price_ge wps)) as Hp.
  destruct (snd (injection_pass rate max_volume (stable_sort price_le ips)
                   (stable_sort price_ge wps))) as [|p all].
  - simpl.
    assert (E : forall l, flat_map (withdrawal_of rate []) l = []).
    { induction l as [|w l IH]; [reflexivity|]. simpl. exact IH. }
    now rewrite E.
  - exfalso. inversion Hp as [|? ? (_ & Hin & _ & _ & _ & w & Hw & Hpw & Hdw) _].
    subst. apply stable_sort_In in Hin. apply stable_sort_In in Hw.
    apply (Hnone _ _ Hin Hw). now split.
Qed.

(** X9: when no injection candidate has a withdrawal candidate later in
    time at a strictly higher interpolated price (no candidates on one
    side, withdrawals that are not later, prices that do not rise), the
    returned valuation has no operation, the two synthetic samples only,
    and cash flow, storage costs and contract value 0. *)
Theorem no_profitable_pair_is_idle (self : GasStoragePricer)
    (injection_dates withdrawal_dates : list datetime)
    (rate max_volume : Q) (contract_start contract_end : datetime)
    (res : ValuationResult) :
  (forall i w pi pw,
     In i injection_dates -> In w withdrawal_dates -> (i < w)%Z ->
     interpolate_price self i = Ok pi -> interpolate_price self w = Ok pw ->
     pw <= pi) ->
  optimize_storage_strategy self injection_dates withdrawal_dates
    rate max_volume contract_start contract_end = Ok res ->
  strategy res = [] /\
  inventory_schedule res = [(contract_start, 0); (contract_end, 0)] /\
  total_cash_flow res == 0 /\
  storage_costs res == 0 /\
  contract_value res == 0.
Proof.
  intros Hnone Hres.
  apply optimize_storage_strategy_shape in Hres
    as (ips & wps & end_price & Hips & Hwps & _ & _ & Hs & Hc & Hsch & Hst & Hv).
  assert (E : propose rate max_volume ips wps = []).
  { apply propose_idle. intros ip w Hip Hw [Hp Hd].
    destruct (in_resolved self _ _ _ Hips Hip) as [Hi Hpi].
    destruct (in_resolved self _ _ _ Hwps Hw) as [Hwi Hpw].
    pose proof (Hnone _ _ _ _ Hi Hwi Hd Hpi Hpw) as Hle.
    now apply (Qlt_not_le (snd ip) (snd w)). }
  rewrite E in Hs, Hc, Hsch. cbn in Hs, Hc, Hsch.
  assert (Hcost : storage_costs res == 0).
  { rewrite Hst, Hsch. unfold calculate_storage_costs. cbn. ring. }
  repeat split; auto.
  - now rewrite Hc.
  - rewrite Hv, Hc, Hcost. ring.
Qed.

Lemma no_profitable_pair_is_idle_witness :
  exists res,
    optimize_for example_pricer inverted_contract = Ok res /\
    strategy res = [] /\ contract_value res == 0.
Proof.
  eexists. split.
  - vm_compute. reflexivity.
  - assert (Hnone : forall i w pi pw,
               In i [jan 5] -> In w [jan 3] -> (i < w)%Z ->
               interpolate_price example_pricer i = Ok pi ->
               interpolate_price example_pricer w = Ok pw -> pw <= pi).
    { intros i w pi pw [<-|[]] [<-|[]] Hlt. vm_compute in Hlt. discriminate. }
    destruct (no_profitable_pair_is_idle example_pricer
                [jan 5] [jan 3] 50 100 (jan 1) (jan 11) _ Hnone eq_refl)
      as (Hs & _ & _ & _ & Hv).
    now split.
Defined.

(** ** The price map *)

Lemma insert_unique_sorted (d : datetime) (l : list datetime) :
  StronglySorted Z.lt l -> StronglySorted Z.lt (insert_unique d l).
Proof.
  induction 1 as [|x l Hs IH Hx]; simpl.
  - repeat constructor.
  - destruct (d <? x)%Z eqn:E1.
    + apply Z.ltb_lt in E1. constructor; [now constructor|].
      constructor; [exact E1|].
      eapply Forall_impl; [|exact Hx]. simpl. intros y Hy. lia.
    + destruct (d =? x)%Z eqn:E2; [now constructor|].
      apply Z.ltb_ge in E1. apply Z.eqb_neq in E2.
      constructor; [exact IH|].
      apply Forall_forall. intros y Hy. apply insert_unique_In in Hy.
      rewrite Forall_forall in Hx. destruct Hy as [->|Hy]; [lia|auto].
Qed.

Lemma sorted_set_sorted (l : list datetime) :
  StronglySorted Z.lt (sorted_set l).
Proof.
  unfold sorted_set. induction l as [|d l IH]; simpl; [constructor|].
  now apply insert_unique_sorted.
Qed.

Lemma resolved_keys (self : GasStoragePricer) (dates : list datetime)
    (pm : list row) :
  Forall2 (resolved self) dates pm ->
  map fst pm = dates /\
  Forall (fun item => interpolate_price self (fst item) = Ok (snd item)) pm.
Proof.
  induction 1 as [|d it dates pm [Hk Hv] _ [IHk IHv]]; [now split|].
  split; [simpl; now rewrite Hk, IHk|].
  constructor; [now rewrite Hk|exact IHv].
Qed.

(** X10: the price_map of a returned valuation has one entry for every
    injection date, withdrawal date, the contract start and the contract
    end, and for no other date; its dates are strictly ascending (no date
    twice); and looking a date up in it gives the interpolated price of
    that date. *)
Theorem price_map_covers_all_dates (self : GasStoragePricer)
    (injection_dates withdrawal_dates : list datetime)
    (rate max_volume : Q) (contract_start contract_end : datetime)
    (res : ValuationResult) :
  optimize_storage_strategy self injection_dates withdrawal_dates
    rate max_volume contract_start contract_end = Ok res ->
  StronglySorted Z.lt (map fst (price_map res)) /\
  (forall d, In d (map fst (price_map res)) <->
             In d injection_dates \/ In d withdrawal_dates \/
             d = contract_start \/ d = contract_end) /\
  (forall d, In d (map fst (price_map res)) ->
             exists p, getitem (price_map res) d = Ok p /\
                       interpolate_price self d = Ok p).
Proof.
  intros Hres.
  apply optimize_storage_strategy_shape in Hres
    as (ips & wps & end_price & _ & _ & Hpm & _).
  apply resolved_keys in Hpm as [Hk Hv]. rewrite Hk.
  split; [apply sorted_set_sorted|]. split.
  - intros d. rewrite sorted_set_In, !in_app_iff. simpl. intuition.
  - intros d Hd. apply (getitem_ok self); [exact Hv|]. now rewrite Hk.
Qed.

Lemma price_map_covers_all_dates_witness :
  exists res,
    optimize_for example_pricer example_contract = Ok res /\
    StronglySorted Z.lt (map fst (price_map res)).
Proof.
  eexists. split.
  - vm_compute. reflexivity.
  - apply (price_map_covers_all_dates example_pricer
             [jan 2; jan 3] [jan 10] 60 100 (jan 1) (jan 11) _ eq_refl).
Defined.

(** ** The constructor *)



Lemma sorted_unique_perm_eq (l1 l2 : list row) :
  StronglySorted (rel_of date_le) l1 ->
  StronglySorted (rel_of date_le) l2 ->
  NoDup (map Dates l1) ->
  Permutation l1 l2 ->
  l1 = l2.
Proof.
  intros Hs1. revert l2.
  induction Hs1 as [|a t1 Hs1 IH Ha]; intros l2 Hs2 Hnd Hperm.
  - now apply Permutation_nil in Hperm.
  - destruct l2 as [|b t2].
    { apply Permutation_sym, Permutation_nil in Hperm. discriminate. }
    assert (Hab : a = b).
    { apply (unique_date_row (a :: t1)); [exact Hnd|now left| |].
      - apply (Permutation_in _ (Permutation_sym Hperm)). now left.
      - assert (Hb : In b (a :: t1))
          by (apply (Permutation_in _ (Permutation_sym Hperm)); now left).
        assert (Ha' : In a (b :: t2))
          by (apply (Permutation_in _ Hperm); now left).
        pose proof (sorted_head_least a t1 (SSorted_cons a Hs1 Ha) b Hb).
        pose proof (sorted_head_least b t2 Hs2 a Ha'). lia. }
    subst b. f_equal.
    apply IH.
    + now apply StronglySorted_inv in Hs2.
    + now inversion Hnd.
    + now apply Permutation_cons_inv in Hperm.
Qed.

(** X12: with unique dates the order of the rows given to the constructor
    does not matter: two series with the same rows give the same pricer,
    hence the same interpolated prices and the same valuations. *)
Theorem constructor_ignores_row_order (data data' : list row) (cost : Q) :
  NoDup (map Dates data) ->
  Permutation data data' ->
  __init__ data cost = __init__ data' cost.
Proof.
  intros Hnd Hperm. unfold __init__. f_equal.
  apply sorted_unique_perm_eq.
  - apply sort_values_sorted.
  - apply sort_values_sorted.
  - now apply sort_values_NoDup.
  - eapply perm_trans; [apply Permutation_sym, stable_sort_perm|].
    eapply perm_trans; [exact Hperm|apply stable_sort_perm].
Qed.

Lemma constructor_ignores_row_order_witness :
  __init__ two_points (1#100) = __init__ two_points_reversed (1#100).
Proof.
  apply constructor_ignores_row_order.
  - exact two_points_NoDup.
  - apply perm_swap.
Defined.

(** ** The cost rate *)



(** ** Storage cost of a schedule in two parts *)




(** ** Interpolated prices between their two neighbours *)


